(** * prometheus-hydrao-exporter: session renewal and cache refresh

    A shallow embedding of the two stateful cores of the exporter:

    - [Hydrao]: the API client of [internal/hydrao/api.go]: the session
      record, [NewClient], [NewSession], [RefreshSession], [doHTTPPost],
      [doHTTPGet], [do], [processHTTPResponse] and [GetShowerheads], written
      as programs over the effects the Go code performs (clock readings, HTTP
      exchanges, JSON decoding, logging), with the device records in a heap,
      since the client decodes every response into the one slice it returns;
    - [Collector]: the Prometheus collector: [New], [Describe], [Collect],
      [RefreshData], [collectShowerHeadData], [sendMetric], first as
      sequential functions, then as threads of an interleaving semantics in
      which scrapes and detached refresh tasks share the collector, its
      reader/writer lock, the client and the heap. *)

From Stdlib Require Import ZArith List String Ascii Bool Lia.
From Stdlib Require Import Floats.PrimFloat.
From Stdlib Require Numbers.Cyclic.Int63.Uint63.
Import ListNotations.

Open Scope string_scope.
Open Scope Z_scope.

(** ** Go's [time] package, as far as the exporter uses it *)

Module GoTime.

(** A [time.Time] as the number of nanoseconds since the zero Time
    (January 1, year 1, 00:00:00 UTC); a [time.Duration] is an int64 count of
    nanoseconds. *)
Definition Time := Z.
Definition Duration := Z.

Definition minDuration : Duration := - 2 ^ 63.
Definition maxDuration : Duration := 2 ^ 63 - 1.

Definition Nanosecond : Duration := 1.
Definition Second : Duration := 1000000000.

(** int64 arithmetic wraps around. *)
Definition wrap64 (x : Z) : Z := (x + 2 ^ 63) mod 2 ^ 64 - 2 ^ 63.

Definition dmul (a b : Duration) : Duration := wrap64 (a * b).
Definition dsub (a b : Duration) : Duration := wrap64 (a - b).

(** [t.Sub(u)]: the difference, saturated to the representable durations. *)
Definition Sub (t u : Time) : Duration :=
  if t - u <? minDuration then minDuration
  else if maxDuration <? t - u then maxDuration
  else t - u.

Definition IsZero (t : Time) : bool := t =? 0.

(** Seconds between the zero Time and the Unix epoch. *)
Definition unixToInternal : Z := 62135596800.

Definition Unix (t : Time) : Z := t / Second - unixToInternal.

(** [float64(x)] for an integer [x] of at most 63 bits of magnitude. *)
Definition float64_of_Z (z : Z) : float :=
  match z with
  | Z0 => 0%float
  | Zpos _ => PrimFloat.of_uint63 (Uint63.of_Z z)
  | Zneg p => PrimFloat.opp (PrimFloat.of_uint63 (Uint63.of_Z (Zpos p)))
  end.

(** [d.Seconds()]: [float64(d / Second) + float64(d % Second) / 1e9], with
    Go's truncating division. *)
Definition Seconds (d : Duration) : float :=
  (float64_of_Z (Z.quot d Second) + float64_of_Z (Z.rem d Second) / 1e9)%float.

Lemma wrap64_small (x : Z) : minDuration <= x <= maxDuration -> wrap64 x = x.
Proof.
  unfold wrap64, minDuration, maxDuration. intros H.
  rewrite Z.mod_small; lia.
Qed.

(** [Sub] never under-reports a gap: when [t - u >= d] for a representable
    [d], then also [Sub t u >= d]. *)
Lemma Sub_ge (t u : Time) (d : Duration) :
  d <= maxDuration -> d <= t - u -> d <= Sub t u.
Proof.
  unfold Sub. intros Hd H.
  destruct (Z.ltb_spec (t - u) minDuration).
  - unfold minDuration, maxDuration in *; lia.
  - destruct (Z.ltb_spec maxDuration (t - u)); lia.
Qed.

End GoTime.

Import GoTime.

(** Go [error] values. [BadHTTPReturnCode c] is
    [fmt.Errorf("bad http return code %d", c)]; every other error the code
    meets is produced by a library and carried as its message. *)
Inductive error : Type :=
| BadHTTPReturnCode (code : Z)
| LibError (msg : string).

Inductive Level : Type := Debug | Info | Warn | Error.

(** ** The API client ([internal/hydrao/api.go]) *)

Module Hydrao.

Definition baseURL : string := "https://api.hydrao.com/".
Definition authURL : string := baseURL ++ "sessions".
Definition showerheadsURL : string := baseURL ++ "shower-heads/".

Record Config : Type := {
  Email : string;
  Password : string;
  ApiKey : string
}.

(** [ExpiresIn] is an int16; [Cfg] is the Go field [Config]. *)
Record SessionInfo : Type := {
  AccessToken : string;
  RefreshToken : string;
  ExpiresIn : Z;
  TokenRefresh : Time;
  Cfg : Config
}.

Definition int16 (z : Z) : Prop := - 2 ^ 15 <= z <= 2 ^ 15 - 1.

(** Modelled from the spec: the declaration of [hydrao.Shower], the element
    type of [ShowerHead.Showers], is missing from the sources. The spec gives
    one gauge group per use-session labelled by device identifier and entity
    identifier; the collector reads the five numeric fields below through
    [float64(...)] and the identifier through [fmt.Sprint], so each numeric
    field is carried as the float64 it converts to and [ShowerID] as its
    printed form. *)
Record Shower : Type := {
  sw_DeviceUUID : string;
  ShowerID : string;
  sw_Flow : float;
  sw_Duration : float;
  Temperature : float;
  Volume : float;
  SoapingTime : float
}.

(** Modelled from the spec: the declaration of [hydrao.Threshold] is missing
    from the sources. The spec gives one gauge per threshold entry, labelled
    additionally by a category value; the collector reads [Liter] through
    [float64(...)] and uses [Color] as a label value. *)
Record Threshold : Type := {
  Liter : float;
  Color : string
}.

(** The fields of [ShowerHead] that the collector reads. [Type_] is the Go
    field [Type]; the int16 fields are integers, [Flow] (a float32) is carried
    as the float64 it converts to. The remaining fields of the Go struct are
    decoded and never read. *)
Record ShowerHead : Type := {
  DeviceUUID : string;
  Type_ : string;
  Label : string;
  LastSyncDate : Time;
  RefShowerDuration : Z;
  PreviousFlow : Z;
  Flow : float;
  IsLastSyncComplete : Z;
  ThresholdRequest : string;
  Showers : list Shower
}.

Definition zeroShowerHead : ShowerHead :=
  {| DeviceUUID := ""; Type_ := ""; Label := ""; LastSyncDate := 0;
     RefShowerDuration := 0; PreviousFlow := 0; Flow := 0; IsLastSyncComplete := 0;
     ThresholdRequest := ""; Showers := [] |}.

(** *** Memory

    The client keeps its device records in [showerHeads], a [[]*ShowerHead]:
    [GetShowerheads] decodes every response into that one field and returns
    the field. A slice value is a view of a backing array of pointers, and
    the collector caches the slice value it is handed: the backing array and
    the structs its pointers lead to are shared by everything that holds the
    slice. So both live in a heap: the structs, a pointer being nil or the
    address of one, and the backing arrays, a slice naming one. *)
Definition Ref : Type := nat.

Record Heap : Type := {
  structs : list ShowerHead;
  arrays : list (list (option Ref))
}.

Definition emptyHeap : Heap := {| structs := []; arrays := [] |}.

(** The struct at an address. Every address a Go pointer holds is one of a
    struct; an address outside the memory stands for no pointer of the
    program and has no struct. *)
Definition deref (mem : Heap) (r : Ref) : option ShowerHead := nth_error (structs mem) r.

Fixpoint update {A : Type} (l : list A) (i : nat) (v : A) : list A :=
  match l, i with
  | [], _ => []
  | _ :: l', O => v :: l'
  | x :: l', S i' => x :: update l' i' v
  end.

Definition store (mem : Heap) (r : Ref) (v : ShowerHead) : Heap :=
  {| structs := update (structs mem) r v; arrays := arrays mem |}.

(** [new(ShowerHead)] with its contents: the memory and the new address. *)
Definition alloc (mem : Heap) (v : ShowerHead) : Heap * Ref :=
  ({| structs := (structs mem ++ [v])%list; arrays := arrays mem |},
   List.length (structs mem)).

(** The cells of a backing array, each nil ([None]) or a pointer; their
    number is the capacity. *)
Definition cells (mem : Heap) (a : nat) : list (option Ref) := nth a (arrays mem) [].

Definition set_cell (mem : Heap) (a i : nat) (c : option Ref) : Heap :=
  {| structs := structs mem;
     arrays := update (arrays mem) a (update (cells mem a) i c) |}.

Definition new_array (mem : Heap) (cs : list (option Ref)) : Heap * nat :=
  ({| structs := structs mem; arrays := (arrays mem ++ [cs])%list |},
   List.length (arrays mem)).

(** A slice: its backing array and its length. *)
Record Slice : Type := {
  array : nat;
  len : nat
}.

(** A slice value is [None] when nil. *)
Definition ShowerHeads : Type := option Slice.

(** The elements of a slice, in the memory as it is now. *)
Definition pointers (mem : Heap) (s : ShowerHeads) : list (option Ref) :=
  match s with
  | Some s => firstn (len s) (cells mem (array s))
  | None => []
  end.

(** A loop that reads a field of each element in turn, as [Collect]'s does:
    the structs it reaches, and whether it comes to a nil element, where it
    panics and goes no further. *)
Fixpoint reach (mem : Heap) (ps : list (option Ref)) : list ShowerHead * bool :=
  match ps with
  | [] => ([], false)
  | None :: _ => ([], true)
  | Some r :: ps' =>
      match deref mem r with
      | None => ([], true)
      | Some v => let res := reach mem ps' in (v :: fst res, snd res)
      end
  end.

(** The records a slice shows to such a loop, in the memory as it is now. *)
Definition records (mem : Heap) (s : ShowerHeads) : list ShowerHead :=
  fst (reach mem (pointers mem s)).

Definition nil_reached (mem : Heap) (s : ShowerHeads) : bool :=
  snd (reach mem (pointers mem s)).

(** What [encoding/json] makes of a response body that is to be decoded into
    a [[]*ShowerHead]. A JSON [null] in the place of the array stores
    nothing: [Decode] is given the address of the [interface{}] parameter
    that holds [&c.showerHeads], and a null clears that parameter, not the
    slice. Of a JSON array, the elements are decoded one after the other
    into the cells of the slice. An element that is [null] sets its cell to
    nil. Any other element is decoded into the struct its cell points to, if
    it points to one, and into a new struct otherwise: it is a change of that
    struct (the fields named in the element are stored, the others kept; an
    element that is no object changes nothing). A value that does not fit its
    field is skipped and reported at the end, after the whole array has been
    decoded ([TypeErrors]); an error of an unmarshaling method stops the
    decoding where it is ([Abort]). A body that is not JSON, or is neither an
    array nor null, stores nothing. With an array comes [newcap], the capacity
    the runtime gives a backing array that has to grow, from the capacity it
    has. *)
Inductive ArrayOutcome : Type :=
| Complete
| TypeErrors (first : error)
| Abort (e : error).

Inductive Document : Type :=
| NotAnArray (e : error)
| Null
| Array (elements : list (option (ShowerHead -> ShowerHead))) (outcome : ArrayOutcome)
        (newcap : nat -> nat).

(** Before element [i] is decoded: a slice whose capacity is not above [i]
    moves to a new backing array, to which its elements are copied, and its
    length is raised to [i + 1] if it is below. *)
Definition make_room (newcap : nat -> nat) (mem : Heap) (s : ShowerHeads) (i : nat)
  : Heap * Slice :=
  let cap := match s with Some s => List.length (cells mem (array s)) | None => O end in
  let l := match s with Some s => len s | None => O end in
  let grown := (pointers mem s ++
                repeat None (Nat.max (S i) (newcap cap) - List.length (pointers mem s)))%list in
  let res := match s with
             | Some s => if Nat.leb cap i then new_array mem grown else (mem, array s)
             | None => new_array mem grown
             end in
  (fst res, {| array := snd res; len := Nat.max l (S i) |}).

(** Element [i] is decoded into cell [i]. *)
Definition decode_element (mem : Heap) (s : Slice) (i : nat)
    (element : option (ShowerHead -> ShowerHead)) : Heap :=
  match element with
  | None => set_cell mem (array s) i None
  | Some f =>
      match match nth i (cells mem (array s)) None with
            | Some r => option_map (pair r) (deref mem r)
            | None => None
            end with
      | Some (r, v) => store mem r (f v)
      | None =>
          let res := alloc mem (f zeroShowerHead) in
          set_cell (fst res) (array s) i (Some (snd res))
      end
  end.

Fixpoint decode_elements (newcap : nat -> nat) (mem : Heap) (s : ShowerHeads) (i : nat)
    (elements : list (option (ShowerHead -> ShowerHead))) : Heap * ShowerHeads :=
  match elements with
  | [] => (mem, s)
  | element :: elements' =>
      let res := make_room newcap mem s i in
      decode_elements newcap (decode_element (fst res) (snd res) i element)
        (Some (snd res)) (S i) elements'
  end.

Definition outcome_error (o : ArrayOutcome) : option error :=
  match o with
  | Complete => None
  | TypeErrors e => Some e
  | Abort e => Some e
  end.

(** Decoding into the slice [holder]. When the array has been decoded to its
    end the length is set to the number of elements, and a slice decoded from
    an array without elements is a fresh empty one; when the decoding stops
    early the length is as it was raised. *)
Definition decodeShowerHeads (d : Document) (holder : ShowerHeads) (mem : Heap)
  : (ShowerHeads * Heap) * option error :=
  match d with
  | NotAnArray e => ((holder, mem), Some e)
  | Null => ((holder, mem), None)
  | Array elements outcome newcap =>
      let res := decode_elements newcap mem holder 0 elements in
      let k := List.length elements in
      match outcome with
      | Abort e => ((snd res, fst res), Some e)
      | _ =>
          if Nat.eqb k 0
          then let fresh := new_array (fst res) [] in
               ((Some {| array := snd fresh; len := 0 |}, fst fresh), outcome_error outcome)
          else ((option_map (fun s => {| array := array s; len := k |}) (snd res), fst res),
                outcome_error outcome)
      end
  end.

(** *** Pointers lead somewhere

    In Go a pointer that is not nil is the address of a struct, and a slice
    has a backing array at least as long as the slice. The decoder keeps the
    memory so, whatever the body it is given. *)

Definition cell_ok (n : nat) (c : option Ref) : Prop :=
  match c with
  | Some r => (r < n)%nat
  | None => True
  end.

Definition heap_ok (mem : Heap) : Prop :=
  Forall (Forall (cell_ok (List.length (structs mem)))) (arrays mem).

Definition slice_ok (mem : Heap) (s : ShowerHeads) : Prop :=
  match s with
  | Some s => (array s < List.length (arrays mem))%nat /\
              (len s <= List.length (cells mem (array s)))%nat
  | None => True
  end.

(** The memory grows: structs and arrays are added, none is dropped, and no
    array changes its capacity. *)
Definition extends (mem mem' : Heap) : Prop :=
  (List.length (structs mem) <= List.length (structs mem'))%nat /\
  (List.length (arrays mem) <= List.length (arrays mem'))%nat /\
  forall a, (a < List.length (arrays mem))%nat ->
            List.length (cells mem' a) = List.length (cells mem a).

Lemma extends_refl (mem : Heap) : extends mem mem.
Proof. repeat split; auto. Qed.

Lemma extends_trans (m1 m2 m3 : Heap) : extends m1 m2 -> extends m2 m3 -> extends m1 m3.
Proof.
  intros (A1 & A2 & A3) (B1 & B2 & B3). repeat split; try lia.
  intros a Ha. rewrite B3 by lia. apply A3. exact Ha.
Qed.

Lemma slice_ok_extends (mem mem' : Heap) (s : ShowerHeads) :
  extends mem mem' -> slice_ok mem s -> slice_ok mem' s.
Proof.
  intros (_ & A2 & A3). destruct s as [s|]; [|auto].
  intros [H1 H2]. split; [lia|]. rewrite A3 by exact H1. exact H2.
Qed.

Lemma update_length {A : Type} (l : list A) (i : nat) (v : A) :
  List.length (update l i v) = List.length l.
Proof.
  revert i. induction l as [|x l IH]; intros [|i]; cbn; auto.
Qed.

Lemma Forall_update {A : Type} (P : A -> Prop) (l : list A) (i : nat) (v : A) :
  Forall P l -> P v -> Forall P (update l i v).
Proof.
  intros H Hv. revert i.
  induction H as [|x l Hx Hl IH]; intros [|i]; cbn; constructor; auto.
Qed.

Lemma nth_update {A : Type} (l : list A) (i j : nat) (v d : A) :
  nth j (update l i v) d = if Nat.eqb i j then (if Nat.ltb i (List.length l) then v else d)
                           else nth j l d.
Proof.
  revert i j. induction l as [|x l IH]; intros [|i] [|j]; cbn; try reflexivity.
  - destruct (Nat.eqb i j); reflexivity.
  - rewrite IH. reflexivity.
Qed.

Lemma Forall_cells (P : option Ref -> Prop) (mem : Heap) (a : nat) :
  Forall (Forall P) (arrays mem) -> Forall P (cells mem a).
Proof.
  intros H. unfold cells.
  destruct (Nat.lt_ge_cases a (List.length (arrays mem))) as [Ha|Ha].
  - rewrite Forall_forall in H. apply H. apply nth_In. exact Ha.
  - rewrite nth_overflow by exact Ha. constructor.
Qed.

Lemma cell_ok_le (n m : nat) (c : option Ref) : (n <= m)%nat -> cell_ok n c -> cell_ok m c.
Proof. destruct c; cbn; [lia|auto]. Qed.

Lemma store_ok (mem : Heap) (r : Ref) (v : ShowerHead) :
  heap_ok mem -> heap_ok (store mem r v) /\ extends mem (store mem r v).
Proof.
  intros H. unfold heap_ok, store, extends, cells. cbn [structs arrays].
  rewrite update_length. repeat split; auto.
Qed.

Lemma alloc_ok (mem : Heap) (v : ShowerHead) :
  heap_ok mem ->
  heap_ok (fst (alloc mem v)) /\ extends mem (fst (alloc mem v)) /\
  cell_ok (List.length (structs (fst (alloc mem v)))) (Some (snd (alloc mem v))).
Proof.
  intros H. unfold heap_ok, alloc, extends, cells. cbn [structs arrays fst snd cell_ok].
  rewrite length_app. cbn [List.length]. repeat split; try lia; auto.
  eapply Forall_impl; [|exact H]. intros l. apply Forall_impl.
  intros c. apply cell_ok_le. lia.
Qed.

Lemma set_cell_ok (mem : Heap) (a i : nat) (c : option Ref) :
  heap_ok mem -> cell_ok (List.length (structs mem)) c ->
  heap_ok (set_cell mem a i c) /\ extends mem (set_cell mem a i c).
Proof.
  intros H Hc. unfold heap_ok, set_cell, extends. cbn [structs arrays].
  rewrite update_length. split; [|repeat split; auto].
  - apply Forall_update; [exact H|]. apply Forall_update; [|exact Hc].
    apply Forall_cells. exact H.
  - intros b Hb. unfold cells at 1. cbn [arrays]. rewrite nth_update.
    destruct (Nat.eqb_spec a b) as [->|Hne]; [|reflexivity].
    apply Nat.ltb_lt in Hb. rewrite Hb. apply update_length.
Qed.

Lemma new_array_ok (mem : Heap) (cs : list (option Ref)) :
  heap_ok mem -> Forall (cell_ok (List.length (structs mem))) cs ->
  heap_ok (fst (new_array mem cs)) /\ extends mem (fst (new_array mem cs)) /\
  snd (new_array mem cs) = List.length (arrays mem) /\
  cells (fst (new_array mem cs)) (snd (new_array mem cs)) = cs /\
  (snd (new_array mem cs) < List.length (arrays (fst (new_array mem cs))))%nat.
Proof.
  intros H Hcs. unfold heap_ok, new_array, extends, cells. cbn [structs arrays fst snd].
  rewrite length_app. cbn [List.length].
  split; [apply Forall_app; split; [exact H|repeat constructor; exact Hcs]|].
  split; [repeat split; try lia; intros a Ha; rewrite app_nth1 by exact Ha; reflexivity|].
  split; [reflexivity|]. split; [|lia].
  rewrite app_nth2 by lia. rewrite Nat.sub_diag. reflexivity.
Qed.

Lemma pointers_ok (mem : Heap) (s : ShowerHeads) :
  heap_ok mem -> Forall (cell_ok (List.length (structs mem))) (pointers mem s).
Proof.
  intros H. destruct s as [s|]; [|constructor]. cbn [pointers].
  apply Forall_forall. intros c Hc.
  pose proof (Forall_cells _ mem (array s) H) as Hcells.
  rewrite Forall_forall in Hcells. apply Hcells.
  rewrite <- (firstn_skipn (len s) (cells mem (array s))).
  apply in_or_app. left. exact Hc.
Qed.

Lemma make_room_ok (newcap : nat -> nat) (mem : Heap) (s : ShowerHeads) (i : nat) :
  heap_ok mem -> slice_ok mem s ->
  let res := make_room newcap mem s i in
  heap_ok (fst res) /\ extends mem (fst res) /\ slice_ok (fst res) (Some (snd res)) /\
  (i < len (snd res))%nat.
Proof.
  intros H Hs. unfold make_room.
  set (cap := match s with Some s => List.length (cells mem (array s)) | None => O end).
  set (grown := (pointers mem s ++ repeat None _)%list).
  assert (Hgrown : Forall (cell_ok (List.length (structs mem))) grown).
  { apply Forall_app. split; [apply pointers_ok; exact H|].
    apply Forall_forall. intros c Hc. apply repeat_spec in Hc. subst c. exact I. }
  assert (Hlen : (Nat.max (match s with Some s => len s | None => O end) (S i)
                  <= List.length grown)%nat).
  { unfold grown. rewrite length_app, repeat_length.
    destruct s as [s|]; cbn [pointers slice_ok] in *.
    - destruct Hs as [_ Hs]. rewrite length_firstn. lia.
    - cbn [List.length]. lia. }
  destruct (new_array_ok mem grown H Hgrown) as (N1 & N2 & N3 & N4 & N5).
  cbv zeta. cbn [fst snd len array].
  destruct s as [s|].
  - destruct (Nat.leb_spec cap i) as [Hc|Hc]; cbn [fst snd slice_ok array len].
    + split; [exact N1|]. split; [exact N2|]. split; [|lia].
      split; [exact N5|]. rewrite N4. exact Hlen.
    + split; [exact H|]. split; [apply extends_refl|]. split; [|lia].
      destruct Hs as [Hs1 Hs2]. split; [exact Hs1|]. unfold cap in Hc. lia.
  - cbn [fst snd slice_ok array len].
    split; [exact N1|]. split; [exact N2|]. split; [|lia].
    split; [exact N5|]. rewrite N4. exact Hlen.
Qed.

Lemma decode_element_ok (mem : Heap) (s : Slice) (i : nat)
    (element : option (ShowerHead -> ShowerHead)) :
  heap_ok mem ->
  heap_ok (decode_element mem s i element) /\ extends mem (decode_element mem s i element).
Proof.
  intros H. unfold decode_element. destruct element as [f|].
  - destruct (match nth i (cells mem (array s)) None with
              | Some r => option_map (pair r) (deref mem r)
              | None => None
              end) as [[r v]|].
    + apply store_ok. exact H.
    + destruct (alloc_ok mem (f zeroShowerHead) H) as (A1 & A2 & A3).
      destruct (set_cell_ok _ (array s) i _ A1 A3) as (B1 & B2).
      split; [exact B1|]. eapply extends_trans; eassumption.
  - apply set_cell_ok; [exact H|exact I].
Qed.

Lemma decode_elements_ok (newcap : nat -> nat)
    (elements : list (option (ShowerHead -> ShowerHead))) :
  forall (mem : Heap) (s : ShowerHeads) (i : nat),
    heap_ok mem -> slice_ok mem s ->
    (match s with Some s => (i <= len s)%nat | None => i = O end) ->
    let res := decode_elements newcap mem s i elements in
    heap_ok (fst res) /\ extends mem (fst res) /\ slice_ok (fst res) (snd res) /\
    match snd res with
    | Some s' => (i + List.length elements <= len s')%nat
    | None => (i + List.length elements = 0)%nat
    end.
Proof.
  induction elements as [|e es IH]; intros mem s i H Hs Hi; cbn [decode_elements].
  - cbn [fst snd List.length]. split; [exact H|]. split; [apply extends_refl|].
    split; [exact Hs|]. destruct s; lia.
  - destruct (make_room_ok newcap mem s i H Hs) as (M1 & M2 & M3 & M4).
    destruct (decode_element_ok (fst (make_room newcap mem s i))
                (snd (make_room newcap mem s i)) i e M1) as (D1 & D2).
    specialize (IH (decode_element (fst (make_room newcap mem s i))
                      (snd (make_room newcap mem s i)) i e)
                   (Some (snd (make_room newcap mem s i))) (S i) D1
                   (slice_ok_extends _ _ _ D2 M3) M4).
    destruct IH as (I1 & I2 & I3 & I4).
    split; [exact I1|]. split; [|split; [exact I3|]].
    + eapply extends_trans; [exact M2|]. eapply extends_trans; [exact D2|exact I2].
    + cbn [List.length].
      destruct (snd (decode_elements newcap _ _ (S i) es)); lia.
Qed.

(** Whatever the document, decoding into a slice of a memory in order leaves
    them in order, and the memory has only grown. *)
Lemma decodeShowerHeads_ok (d : Document) (holder : ShowerHeads) (mem : Heap) :
  heap_ok mem -> slice_ok mem holder ->
  let res := decodeShowerHeads d holder mem in
  heap_ok (snd (fst res)) /\ extends mem (snd (fst res)) /\
  slice_ok (snd (fst res)) (fst (fst res)).
Proof.
  intros H Hs. destruct d as [e| |elements outcome newcap]; cbn [decodeShowerHeads].
  - cbn [fst snd]. split; [exact H|]. split; [apply extends_refl|exact Hs].
  - cbn [fst snd]. split; [exact H|]. split; [apply extends_refl|exact Hs].
  - assert (Hi : match holder with Some s => (0 <= len s)%nat | None => 0%nat = 0%nat end)
      by (destruct holder; [lia|reflexivity]).
    destruct (decode_elements_ok newcap elements mem holder 0 H Hs Hi) as (E1 & E2 & E3 & E4).
    assert (Hdone :
      let res := if Nat.eqb (List.length elements) 0
                 then let fresh := new_array (fst (decode_elements newcap mem holder 0 elements)) [] in
                      ((Some {| array := snd fresh; len := 0 |}, fst fresh),
                       outcome_error outcome)
                 else ((option_map (fun s => {| array := array s;
                                                len := List.length elements |})
                          (snd (decode_elements newcap mem holder 0 elements)),
                        fst (decode_elements newcap mem holder 0 elements)),
                       outcome_error outcome) in
      heap_ok (snd (fst res)) /\ extends mem (snd (fst res)) /\
      slice_ok (snd (fst res)) (fst (fst res))).
    { destruct (Nat.eqb_spec (List.length elements) 0) as [Hz|Hz]; cbn [fst snd].
      - destruct (new_array_ok (fst (decode_elements newcap mem holder 0 elements)) []
                    E1 (Forall_nil _)) as (N1 & N2 & N3 & N4 & N5).
        split; [exact N1|]. split; [eapply extends_trans; eassumption|].
        cbn [slice_ok array len]. split; [exact N5|lia].
      - split; [exact E1|]. split; [exact E2|].
        destruct (snd (decode_elements newcap mem holder 0 elements)) as [s'|];
          cbn [option_map slice_ok array len] in *; [|exact I].
        destruct E3 as [E3 E3']. split; [exact E3|]. lia. }
    destruct outcome; try exact Hdone.
    cbn [fst snd]. split; [exact E1|]. split; [exact E2|exact E3].
Qed.

(** The JSON documents the client posts. *)
Inductive Body : Type :=
| EmptyBody
| LoginBody (email password : string)
| RefreshBody (refresh_token : string).

Record Request : Type := {
  Method : string;
  URL : string;
  Header : list (string * string);
  ReqBody : Body
}.

Record Response : Type := {
  StatusCode : Z;
  RespBody : string
}.

Record Client : Type := {
  httpResponse : option Response;
  hydrao : SessionInfo;
  showerHeads : ShowerHeads
}.

Definition set_hydrao (c : Client) (s : SessionInfo) : Client :=
  {| httpResponse := httpResponse c; hydrao := s; showerHeads := showerHeads c |}.

Definition set_showerHeads (c : Client) (l : ShowerHeads) : Client :=
  {| httpResponse := httpResponse c; hydrao := hydrao c; showerHeads := l |}.

Definition set_httpResponse (c : Client) (r : option Response) : Client :=
  {| httpResponse := r; hydrao := hydrao c; showerHeads := showerHeads c |}.

Definition set_TokenRefresh (s : SessionInfo) (t : Time) : SessionInfo :=
  {| AccessToken := AccessToken s; RefreshToken := RefreshToken s;
     ExpiresIn := ExpiresIn s; TokenRefresh := t; Cfg := Cfg s |}.

(** [req.Header.Set(k, v)] replaces the values stored under [k]. *)
Definition Header_Set (k v : string) (r : Request) : Request :=
  {| Method := Method r; URL := URL r;
     Header := filter (fun kv => negb (String.eqb (fst kv) k)) (Header r) ++ [(k, v)];
     ReqBody := ReqBody r |}.

Inductive logval : Type :=
| LStr (s : string)
| LInt (z : Z)
| LDur (d : Duration).

(** *** Effects

    What the client asks of the world. Each event is answered by the
    environment: the clock, [http.NewRequest]'s validation of method and URL,
    the round trip of [http.Client.Do], [encoding/json]'s decoding of a body
    into a session that already has contents and its reading of a body as an
    array of device records, the logger. *)
Inductive event : Type -> Type :=
| TimeNow : event Time
| NewRequestCheck (method url : string) (body : Body) : event (option error)
| ClientDo (req : Request) : event (Response + error)
| DecodeSession (body : string) (holder : SessionInfo) : event (SessionInfo * option error)
| ParseShowerHeads (body : string) : event Document
| BodyClose : event unit
| Log (lvl : Level) (keyvals : list logval) : event unit.

Inductive Prog (A : Type) : Type :=
| Ret (a : A)
| Vis (X : Type) (e : event X) (k : X -> Prog A).

Arguments Ret {A} a.
Arguments Vis {A X} e k.

Fixpoint bind {A B : Type} (m : Prog A) (f : A -> Prog B) : Prog B :=
  match m with
  | Ret a => f a
  | Vis e k => Vis e (fun x => bind (k x) f)
  end.

Definition trigger {X : Type} (e : event X) : Prog X := Vis e Ret.

Notation "x <- m ;; k" := (bind m (fun x => k))
  (at level 61, m at next level, right associativity).
Notation "m ;;; k" := (bind m (fun _ => k))
  (at level 61, right associativity).

(** An environment answers the [n]-th event of a run. *)
Definition Env : Type := forall X : Type, nat -> event X -> X.

(** One event of a run with the answer it got. *)
Inductive occurrence : Type :=
| Occ (X : Type) (e : event X) (x : X).

Arguments Occ {X} e x.

Fixpoint run {A : Type} (env : Env) (n : nat) (p : Prog A) : A * list occurrence :=
  match p with
  | Ret a => (a, [])
  | Vis e k =>
      let x := env _ n e in
      let r := run env (S n) (k x) in
      (fst r, Occ e x :: snd r)
  end.

(** *** The client's functions *)

(** [http.NewRequest]: the request, or the error of the validation. *)
Definition NewRequest (method url : string) (body : Body) : Prog (Request + error) :=
  r <- trigger (NewRequestCheck method url body) ;;
  match r with
  | Some err => Ret (inr err)
  | None => Ret (inl {| Method := method; URL := url; Header := []; ReqBody := body |})
  end.

(** [c.do(req)]: both results of [httpClient.Do] are assigned, the response
    to [c.httpResponse]. *)
Definition do (c : Client) (req : Request) : Prog (Client * (Response + error)) :=
  r <- trigger (ClientDo req) ;;
  match r with
  | inr err => Ret (set_httpResponse c None, inr err)
  | inl resp => Ret (set_httpResponse c (Some resp), inl resp)
  end.

Definition doHTTPPost (c : Client) (url : string) (config : Config) (data : Body)
  : Prog (Client * (Response + error)) :=
  r <- NewRequest "POST" url data ;;
  match r with
  | inr err => Ret (c, inr err)
  | inl req =>
      let req := Header_Set "Content-Type" "application/json" req in
      let req := Header_Set "Accept" "application/json" req in
      let req := Header_Set "x-api-key" (ApiKey config) req in
      do c req
  end.

(** Decoding into [c.hydrao] and into [&c.showerHeads]; for the latter the
    holder is the slice with the memory its pointers lead into. *)
Definition decodeSessionInfo (body : string) (holder : SessionInfo)
  : Prog (SessionInfo * option error) :=
  trigger (DecodeSession body holder).

Definition decodeSlice (body : string) (holder : ShowerHeads * Heap)
  : Prog ((ShowerHeads * Heap) * option error) :=
  d <- trigger (ParseShowerHeads body) ;;
  Ret (decodeShowerHeads d (fst holder) (snd holder)).

(** [processHTTPResponse]: [decode] is [json.NewDecoder(resp.Body).Decode]
    at the holder's type. The deferred [resp.Body.Close()] runs on every
    path. *)
Definition processHTTPResponse {H : Type}
    (decode : string -> H -> Prog (H * option error))
    (resp : Response) (err : option error) (holder : H) : Prog (H * option error) :=
  r <- match err with
       | Some e => Ret (holder, Some e)
       | None =>
           if negb (StatusCode resp =? 200)
           then Ret (holder, Some (BadHTTPReturnCode (StatusCode resp)))
           else decode (RespBody resp) holder
       end ;;
  trigger BodyClose ;;;
  Ret r.

(** The session request of [NewSession] and [RefreshSession]; encoding a
    struct of strings cannot fail, so the first [return err] of either is
    never taken. *)
Definition session_request (c : Client) (data : Body) : Prog (Client * option error) :=
  now <- trigger TimeNow ;;
  r <- doHTTPPost c authURL (Cfg (hydrao c)) data ;;
  match r with
  | (c, inr err) => Ret (c, Some err)
  | (c, inl resp) =>
      r <- processHTTPResponse decodeSessionInfo resp None (hydrao c) ;;
      match r with
      | (s, Some err) => Ret (set_hydrao c s, Some err)
      | (s, None) => Ret (set_hydrao c (set_TokenRefresh s now), None)
      end
  end.

Definition NewSession (c : Client) : Prog (Client * option error) :=
  session_request c (LoginBody (Email (Cfg (hydrao c))) (Password (Cfg (hydrao c)))).

Definition RefreshSession (c : Client) : Prog (Client * option error) :=
  session_request c (RefreshBody (RefreshToken (hydrao c))).

(** The renewal threshold of [doHTTPGet]:
    [time.Duration(ExpiresIn)*time.Second - time.Duration(100)*time.Second]. *)
Definition renewalThreshold (s : SessionInfo) : Duration :=
  dsub (dmul (ExpiresIn s) Second) (dmul 100 Second).

Definition doHTTPGet (c : Client) (url : string) (config : Config) (data : Body)
  : Prog (Client * (Response + error)) :=
  r <- NewRequest "GET" url data ;;
  match r with
  | inr err => Ret (c, inr err)
  | inl req =>
      now <- trigger TimeNow ;;
      r <- (if Sub now (TokenRefresh (hydrao c)) >? renewalThreshold (hydrao c)
            then
              trigger (Log Debug [LStr "msg"; LStr "token expires in value %d";
                                  LInt (ExpiresIn (hydrao c))]) ;;;
              trigger (Log Debug [LStr "msg"; LStr "time since last refresh %d";
                                  LDur (Sub now (TokenRefresh (hydrao c)))]) ;;;
              trigger (Log Debug [LStr "msg"; LStr "token expires minus 100 %d";
                                  LDur (renewalThreshold (hydrao c))]) ;;;
              RefreshSession c
            else Ret (c, None)) ;;
      match r with
      | (c, Some err) => Ret (c, inr err)
      | (c, None) =>
          let req := Header_Set "Content-Type" "application/json" req in
          let req := Header_Set "Accept" "application/json" req in
          let req := Header_Set "x-api-key" (ApiKey config) req in
          let req := Header_Set "Authorization" (AccessToken (hydrao c)) req in
          do c req
      end
  end.

(** [GetShowerheads]: the response is decoded into [c.showerHeads] itself,
    and [c.showerHeads] is what is returned. *)
Definition GetShowerheads (c : Client) (mem : Heap)
  : Prog ((Client * Heap) * (ShowerHeads * option error)) :=
  r <- doHTTPGet c showerheadsURL (Cfg (hydrao c)) EmptyBody ;;
  match r with
  | (c, inr err) => Ret ((c, mem), (None, Some err))
  | (c, inl resp) =>
      r <- processHTTPResponse decodeSlice resp None (showerHeads c, mem) ;;
      match r with
      | ((l, mem), Some err) => Ret ((set_showerHeads c l, mem), (None, Some err))
      | ((l, mem), None) => Ret ((set_showerHeads c l, mem), (l, None))
      end
  end.

(** *** Observations on a run *)

(** A renewal is performed when [RefreshSession] runs: it is the one place
    that builds a POST request to the session URL carrying a refresh
    token. *)
Definition is_refresh_body (b : Body) : bool :=
  match b with
  | RefreshBody _ => true
  | _ => false
  end.

Definition is_renewal (o : occurrence) : bool :=
  match o with
  | Occ (NewRequestCheck m u b) _ =>
      String.eqb m "POST" && String.eqb u authURL && is_refresh_body b
  | _ => false
  end.

(** A GET request handed to [http.Client.Do]. *)
Definition is_get (o : occurrence) : bool :=
  match o with
  | Occ (ClientDo req) _ => String.eqb (Method req) "GET"
  | _ => false
  end.

Definition renews (tr : list occurrence) : bool := existsb is_renewal tr.
Definition sends_get (tr : list occurrence) : bool := existsb is_get tr.

(** Answers that do not depend on the position of the event: a fixed clock,
    every request well formed, the round trip, the session decoder and the
    reading of device records given per request and per body. *)
Definition constEnv (now : Time) (roundTrip : Request -> Response + error)
    (decode : string -> SessionInfo -> SessionInfo * option error)
    (parse : string -> Document) : Env :=
  fun X _ e =>
    match e in event X return X with
    | TimeNow => now
    | NewRequestCheck _ _ _ => None
    | ClientDo req => roundTrip req
    | DecodeSession body holder => decode body holder
    | ParseShowerHeads body => parse body
    | BodyClose => tt
    | Log _ _ => tt
    end.

(** *** Facts about the client *)

(** The renewal threshold is computed without overflow for every int16
    lifetime. *)
Lemma renewalThreshold_exact (s : SessionInfo) :
  int16 (ExpiresIn s) ->
  renewalThreshold s = ExpiresIn s * Second - 100 * Second.
Proof.
  unfold int16, renewalThreshold, dsub, dmul. intros H.
  rewrite !wrap64_small; unfold minDuration, maxDuration, Second; try lia.
  rewrite !wrap64_small; unfold minDuration, maxDuration; lia.
Qed.

(** Saturation does not change the comparison against the threshold. *)
Lemma elapsed_gt_threshold (now : Time) (s : SessionInfo) :
  int16 (ExpiresIn s) ->
  (Sub now (TokenRefresh s) >? renewalThreshold s) = true <->
  now - TokenRefresh s > ExpiresIn s * Second - 100 * Second.
Proof.
  intros H. rewrite (renewalThreshold_exact s H).
  unfold int16 in H. rewrite Z.gtb_gt. unfold Sub, minDuration, maxDuration, Second.
  destruct (Z.ltb_spec (now - TokenRefresh s) (- 2 ^ 63));
    [|destruct (Z.ltb_spec (2 ^ 63 - 1) (now - TokenRefresh s))]; lia.
Qed.

(** [RefreshSession] starts a renewal and sends no GET, whatever the
    environment answers. *)
Lemma RefreshSession_renews (env : Env) (n : nat) (c : Client) :
  renews (snd (run env n (RefreshSession c))) = true.
Proof.
  unfold RefreshSession, session_request, doHTTPPost, NewRequest. simpl.
  reflexivity.
Qed.

Lemma RefreshSession_no_get (env : Env) (n : nat) (c : Client) :
  sends_get (snd (run env n (RefreshSession c))) = false.
Proof.
  unfold RefreshSession, session_request, doHTTPPost, NewRequest,
    processHTTPResponse, decodeSessionInfo, do. simpl.
  destruct (env _ (S n) (NewRequestCheck _ _ _)) as [e|]; simpl; [reflexivity|].
  match goal with |- context [env _ ?k (ClientDo ?r)] =>
    destruct (env _ k (ClientDo r)) as [resp|e] end; simpl; [|reflexivity].
  destruct (StatusCode resp =? 200); simpl.
  - match goal with |- context [env _ ?k (DecodeSession ?b ?h)] =>
      destruct (env _ k (DecodeSession b h)) as [s [e|]] end; reflexivity.
  - reflexivity.
Qed.

(** *** Proactive renewal *)

(** C1 (as the code has it). With a well-formed GET request and an int16
    token lifetime, [doHTTPGet] performs a renewal exactly when
    [elapsed = now - lastRenewed] is strictly greater than
    [tokenLifetime - 100 s]; at [elapsed = tokenLifetime - 100 s] it does
    not renew. *)
Theorem doHTTPGet_renews_iff
    (env : Env) (c : Client) (url : string) (config : Config) (data : Body) :
  int16 (ExpiresIn (hydrao c)) ->
  env _ 0%nat (NewRequestCheck "GET" url data) = None ->
  let now := env _ 1%nat TimeNow in
  let elapsed := now - TokenRefresh (hydrao c) in
  let tokenLifetime := ExpiresIn (hydrao c) * Second in
  (renews (snd (run env 0 (doHTTPGet c url config data))) = true <->
   elapsed > tokenLifetime - 100 * Second) /\
  (elapsed = tokenLifetime - 100 * Second ->
   renews (snd (run env 0 (doHTTPGet c url config data))) = false).
Proof.
  intros H16 Hreq now elapsed tokenLifetime.
  assert (Hiff : renews (snd (run env 0 (doHTTPGet c url config data))) = true <->
                 elapsed > tokenLifetime - 100 * Second).
  { unfold elapsed, tokenLifetime, now.
    rewrite <- (elapsed_gt_threshold _ _ H16).
    unfold doHTTPGet, NewRequest. simpl. rewrite Hreq. simpl.
    destruct (Sub (env Time 1%nat TimeNow) (TokenRefresh (hydrao c))
              >? renewalThreshold (hydrao c)) eqn:E; simpl.
    - tauto.
    - match goal with |- context [env _ ?k (ClientDo ?r)] =>
        destruct (env _ k (ClientDo r)) end; simpl; split; discriminate. }
  split; [exact Hiff|].
  intros Heq.
  destruct (renews (snd (run env 0 (doHTTPGet c url config data)))); [|reflexivity].
  assert (elapsed > tokenLifetime - 100 * Second) by (apply Hiff; reflexivity). lia.
Qed.

(** C5 (as the code has it). When the renewal inside [doHTTPGet] fails,
    [doHTTPGet] returns the renewal's error and hands no GET request to the
    HTTP client. The session is left as the failed renewal left it: untouched,
    unless the failure is the decoder's, which keeps what it stored. *)
Theorem doHTTPGet_renewal_failure
    (env : Env) (c c' : Client) (url : string) (config : Config) (data : Body)
    (e : error) :
  env _ 0%nat (NewRequestCheck "GET" url data) = None ->
  (Sub (env _ 1%nat TimeNow) (TokenRefresh (hydrao c))
   >? renewalThreshold (hydrao c)) = true ->
  fst (run env 5 (RefreshSession c)) = (c', Some e) ->
  let r := run env 0 (doHTTPGet c url config data) in
  fst r = (c', inr e) /\
  sends_get (snd r) = false /\
  (hydrao c' = hydrao c \/
   exists body,
     In (Occ (DecodeSession body (hydrao c)) (hydrao c', Some e)) (snd r)).
Proof.
  intros Hreq Hdue Hfail r. subst r. revert Hfail.
  unfold doHTTPGet, RefreshSession, session_request, doHTTPPost, NewRequest,
    processHTTPResponse, decodeSessionInfo, do.
  simpl. rewrite Hreq. simpl. rewrite Hdue. simpl.
  destruct (env _ 6%nat (NewRequestCheck _ _ _)) as [e0|]; simpl.
  { intros [= <- <-]. auto. }
  match goal with |- context [env _ ?k (ClientDo ?r)] =>
    destruct (env _ k (ClientDo r)) as [resp|e0] end; simpl.
  2: { intros [= <- <-]. auto. }
  destruct (StatusCode resp =? 200); simpl.
  - match goal with |- context [env _ ?k (DecodeSession ?b ?h)] =>
      destruct (env _ k (DecodeSession b h)) as [s [e0|]] eqn:Hdec end; simpl.
    + intros [= <- <-]. simpl. repeat split; try reflexivity.
      right. exists (RespBody resp).
      repeat (first [left; reflexivity | right]).
    + discriminate.
  - intros [= <- <-]. simpl. auto.
Qed.

(** *** Concrete runs *)

Definition demoConfig : Config :=
  {| Email := "user@example.org"; Password := "secret"; ApiKey := "key" |}.

(** A session renewed at [t0] (in 2025) with a one hour token. *)
Definition t0 : Time := 63900000000 * Second.

Definition demoClient : Client :=
  {| httpResponse := None;
     hydrao := {| AccessToken := "access"; RefreshToken := "refresh";
                  ExpiresIn := 3600; TokenRefresh := t0; Cfg := demoConfig |};
     showerHeads := None |}.

Definition keepSession (body : string) (s : SessionInfo) : SessionInfo * option error :=
  (s, None).

(** A growth of backing arrays by half, to four cells at least. *)
Definition growth (cap : nat) : nat := Nat.max 4 (cap + Nat.div2 cap).

Definition emptyArray (body : string) : Document := Array [] Complete growth.

(** An upstream that accepts every request. *)
Definition upstreamOK (req : Request) : Response + error :=
  inl {| StatusCode := 200; RespBody := "[]" |}.

(** An upstream that rejects session requests and would serve the data. *)
Definition upstreamNoRenewal (req : Request) : Response + error :=
  if String.eqb (Method req) "POST"
  then inl {| StatusCode := 401; RespBody := "" |}
  else inl {| StatusCode := 200; RespBody := "[]" |}.

Lemma doHTTPGet_renews_iff_witness :
  let env := constEnv (t0 + 3500 * Second + 1) upstreamOK keepSession emptyArray in
  (renews (snd (run env 0 (doHTTPGet demoClient showerheadsURL demoConfig EmptyBody))) = true <->
   t0 + 3500 * Second + 1 - t0 > 3600 * Second - 100 * Second) /\
  (t0 + 3500 * Second + 1 - t0 = 3600 * Second - 100 * Second ->
   renews (snd (run env 0 (doHTTPGet demoClient showerheadsURL demoConfig EmptyBody))) = false).
Proof.
  intros env.
  apply (doHTTPGet_renews_iff env demoClient showerheadsURL demoConfig EmptyBody).
  - unfold int16; simpl; lia.
  - reflexivity.
Defined.

(** At [elapsed = tokenLifetime - 100 s] exactly, where the claim has a
    renewal, [doHTTPGet] sends the GET with the old token and renews nothing. *)
Lemma doHTTPGet_boundary_counterexample :
  let env := constEnv (t0 + 3500 * Second) upstreamOK keepSession emptyArray in
  let elapsed := env _ 1%nat TimeNow - TokenRefresh (hydrao demoClient) in
  let tokenLifetime := ExpiresIn (hydrao demoClient) * Second in
  elapsed >= tokenLifetime - 100 * Second /\
  renews (snd (run env 0 (doHTTPGet demoClient showerheadsURL demoConfig EmptyBody))) = false /\
  sends_get (snd (run env 0 (doHTTPGet demoClient showerheadsURL demoConfig EmptyBody))) = true.
Proof.
  vm_compute. repeat split; discriminate.
Qed.

Lemma doHTTPGet_renewal_failure_witness :
  let env := constEnv (t0 + 3600 * Second) upstreamNoRenewal keepSession emptyArray in
  let r := run env 0 (doHTTPGet demoClient showerheadsURL demoConfig EmptyBody) in
  fst r = (set_httpResponse demoClient (Some {| StatusCode := 401; RespBody := "" |}),
           inr (BadHTTPReturnCode 401)) /\
  sends_get (snd r) = false /\
  (hydrao (set_httpResponse demoClient (Some {| StatusCode := 401; RespBody := "" |}))
   = hydrao demoClient \/
   exists body,
     In (Occ (DecodeSession body (hydrao demoClient))
             (hydrao (set_httpResponse demoClient (Some {| StatusCode := 401; RespBody := "" |})),
              Some (BadHTTPReturnCode 401))) (snd r)).
Proof.
  intros env.
  apply (doHTTPGet_renewal_failure env demoClient
           (set_httpResponse demoClient (Some {| StatusCode := 401; RespBody := "" |}))
           showerheadsURL demoConfig EmptyBody (BadHTTPReturnCode 401)).
  - reflexivity.
  - vm_compute. reflexivity.
  - vm_compute. reflexivity.
Defined.

(** The token is past its renewal point and upstream refuses the renewal
    while it would still answer the GET: the claim has the GET attempted,
    [doHTTPGet] returns the renewal's error without sending it. *)
Lemma doHTTPGet_renewal_failure_counterexample :
  let env := constEnv (t0 + 3600 * Second) upstreamNoRenewal keepSession emptyArray in
  let r := run env 0 (doHTTPGet demoClient showerheadsURL demoConfig EmptyBody) in
  renews (snd r) = true /\
  snd (fst r) = inr (BadHTTPReturnCode 401) /\
  sends_get (snd r) = false.
Proof.
  vm_compute. repeat split.
Qed.

(** *** More of the client: what is sent, and what comes back *)

(** [NewClient]: no token, a zero lifetime, the zero Time as the time of the
    last renewal, the credentials copied; the HTTP client's settings (idle
    connections, ten second timeout) are the environment's. *)
Definition NewClient (config : Config) : Client :=
  {| httpResponse := None;
     hydrao := {| AccessToken := ""; RefreshToken := ""; ExpiresIn := 0;
                  TokenRefresh := 0;
                  Cfg := {| Email := Email config; Password := Password config;
                            ApiKey := ApiKey config |} |};
     showerHeads := None |}.

(** The requests handed to [http.Client.Do], in order. *)
Definition sent (tr : list occurrence) : list Request :=
  flat_map (fun o => match o with
                     | Occ (ClientDo req) _ => [req]
                     | _ => []
                     end) tr.

(** The responses received and the bodies closed. *)
Definition received (tr : list occurrence) : nat :=
  List.length
    (filter (fun o => match o with
                      | Occ e x =>
                          match e in event X return X -> bool with
                          | ClientDo _ => fun r => match r with
                                                   | inl _ => true
                                                   | inr _ => false
                                                   end
                          | _ => fun _ => false
                          end x
                      end) tr).

Definition closed (tr : list occurrence) : nat :=
  List.length
    (filter (fun o => match o with
                      | Occ BodyClose _ => true
                      | _ => false
                      end) tr).

Definition jsonHeaders (apiKey : string) : list (string * string) :=
  [("Content-Type", "application/json"); ("Accept", "application/json");
   ("x-api-key", apiKey)].

(** The session request as [doHTTPPost] sends it. *)
Definition sessionPost (c : Client) (data : Body) : Request :=
  {| Method := "POST"; URL := authURL;
     Header := jsonHeaders (ApiKey (Cfg (hydrao c))); ReqBody := data |}.

Lemma post_headers (apiKey url : string) (data : Body) :
  Header_Set "x-api-key" apiKey
    (Header_Set "Accept" "application/json"
       (Header_Set "Content-Type" "application/json"
          {| Method := "POST"; URL := url; Header := []; ReqBody := data |}))
  = {| Method := "POST"; URL := url; Header := jsonHeaders apiKey; ReqBody := data |}.
Proof. reflexivity. Qed.

Ltac answer env :=
  match goal with
  | |- context [match ?x with _ => _ end] =>
      lazymatch x with
      | env (option error) _ _ =>
          let E := fresh "Ereq" in destruct x as [?e|] eqn:E
      | env (Response + error)%type _ _ =>
          let E := fresh "Edo" in destruct x as [?resp|?e] eqn:E
      | env Document _ _ =>
          let E := fresh "Edoc" in destruct x as [?e| |?els ?o] eqn:E
      | negb (StatusCode _ =? 200) =>
          let E := fresh "Est" in destruct x eqn:E
      end
  | |- context [env (SessionInfo * option error)%type ?k ?ev] =>
      let E := fresh "Edec" in
      destruct (env (SessionInfo * option error)%type k ev) as [?s [?e|]] eqn:E
  end; cbn.

(** What a session request comes to, [r] being what it returns with the
    client it leaves. When it returns no error, the request was well formed,
    upstream answered 200 and the body decoded; the session is then what the
    decoder stored, stamped with [now], the clock reading taken before the
    request was sent. When it returns an error, the session is as it was,
    unless the error is the decoder's, which leaves what it stored. *)
Definition SessionOutcome (env : Env) (n : nat) (c : Client) (data : Body)
    (r : Client * option error) : Prop :=
  let now := env _ n TimeNow in
  match snd r with
  | None =>
      exists resp s,
        env _ (S n) (NewRequestCheck "POST" authURL data) = None /\
        env _ (S (S n)) (ClientDo (sessionPost c data)) = inl resp /\
        StatusCode resp = 200 /\
        env _ (S (S (S n))) (DecodeSession (RespBody resp) (hydrao c)) = (s, None) /\
        hydrao (fst r) = set_TokenRefresh s now /\
        httpResponse (fst r) = Some resp
  | Some e =>
      hydrao (fst r) = hydrao c \/
      exists resp s,
        env _ (S (S (S n))) (DecodeSession (RespBody resp) (hydrao c)) = (s, Some e) /\
        hydrao (fst r) = s
  end.

Lemma session_request_outcome (env : Env) (n : nat) (c : Client) (data : Body) :
  SessionOutcome env n c data (fst (run env n (session_request c data))).
Proof.
  unfold SessionOutcome, session_request, doHTTPPost, NewRequest, processHTTPResponse,
    decodeSessionInfo, do. cbn.
  answer env.
  1: left; reflexivity.
  rewrite post_headers.
  answer env.
  2: left; reflexivity.
  answer env.
  1: left; reflexivity.
  answer env.
  - right. exists resp, s. split; [assumption|reflexivity].
  - exists resp, s. apply negb_false_iff, Z.eqb_eq in Est. repeat split; assumption.
Qed.

(** [NewSession] and [RefreshSession] succeed exactly on a well-formed
    request, a 200 and a body that decodes, stamp the session with the time
    read before the request, and leave the session untouched when they fail
    before decoding. *)
Theorem session_requests_outcome (env : Env) (n : nat) (c : Client) :
  SessionOutcome env n c (LoginBody (Email (Cfg (hydrao c))) (Password (Cfg (hydrao c))))
    (fst (run env n (NewSession c))) /\
  SessionOutcome env n c (RefreshBody (RefreshToken (hydrao c)))
    (fst (run env n (RefreshSession c))).
Proof.
  split; apply session_request_outcome.
Qed.

(** What a session request sends: nothing, or the one POST to the session
    URL, with the JSON headers and the API key, and no [Authorization]
    header. *)
Lemma session_request_sent (env : Env) (n : nat) (c : Client) (data : Body) :
  sent (snd (run env n (session_request c data))) = [] \/
  sent (snd (run env n (session_request c data))) = [sessionPost c data].
Proof.
  unfold session_request, doHTTPPost, NewRequest, processHTTPResponse,
    decodeSessionInfo, do. cbn.
  answer env.
  1: left; reflexivity.
  rewrite post_headers. right.
  answer env.
  2: reflexivity.
  answer env.
  1: reflexivity.
  answer env; reflexivity.
Qed.

(** [NewSession] sends the credentials of the configuration and
    [RefreshSession] the refresh token the session holds, each in at most one
    POST to the session URL, with the API key of the session's configuration
    and without an [Authorization] header. *)
Theorem session_requests_sent (env : Env) (n : nat) (c : Client) :
  let login := LoginBody (Email (Cfg (hydrao c))) (Password (Cfg (hydrao c))) in
  let refresh := RefreshBody (RefreshToken (hydrao c)) in
  (sent (snd (run env n (NewSession c))) = [] \/
   sent (snd (run env n (NewSession c))) = [sessionPost c login]) /\
  (sent (snd (run env n (RefreshSession c))) = [] \/
   sent (snd (run env n (RefreshSession c))) = [sessionPost c refresh]) /\
  (forall req v,
     In req (sent (snd (run env n (NewSession c))) ++
             sent (snd (run env n (RefreshSession c))))%list ->
     ~ In ("Authorization", v) (Header req)).
Proof.
  intros login refresh.
  pose proof (session_request_sent env n c login) as Hl.
  pose proof (session_request_sent env n c refresh) as Hr.
  split; [exact Hl|]. split; [exact Hr|].
  intros req v Hin. unfold NewSession, RefreshSession in Hin. fold login refresh in Hin.
  apply in_app_iff in Hin.
  assert (Hreq : exists data, req = sessionPost c data).
  { destruct Hin as [Hin|Hin]; [destruct Hl as [E|E]|destruct Hr as [E|E]];
      rewrite E in Hin; simpl in Hin; try contradiction;
      destruct Hin as [<-|[]]; eauto. }
  destruct Hreq as [data ->].
  intros [H|[H|[H|[]]]]; discriminate.
Qed.

(** The GET request as [doHTTPGet] sends it for a client that holds the
    session [s]. *)
Definition getRequest (s : SessionInfo) (url : string) (config : Config) (data : Body)
  : Request :=
  {| Method := "GET"; URL := url;
     Header := jsonHeaders (ApiKey config) ++ [("Authorization", AccessToken s)];
     ReqBody := data |}.

Lemma get_headers (apiKey token url : string) (data : Body) :
  Header_Set "Authorization" token
    (Header_Set "x-api-key" apiKey
       (Header_Set "Accept" "application/json"
          (Header_Set "Content-Type" "application/json"
             {| Method := "GET"; URL := url; Header := []; ReqBody := data |})))
  = {| Method := "GET"; URL := url;
       Header := (jsonHeaders apiKey ++ [("Authorization", token)])%list;
       ReqBody := data |}.
Proof. reflexivity. Qed.

Ltac due :=
  match goal with
  | |- context [Sub ?a ?b >? renewalThreshold ?s] =>
      let E := fresh "Edue" in
      destruct (Sub a b >? renewalThreshold s) eqn:E
  end; cbn.

(** What [doHTTPGet] sends. When it renews, it sends what the renewal
    sends, at most the one POST with the refresh token and never the
    credentials; if the renewal returns an error, that is all, and
    [doHTTPGet] returns that error with the client as the renewal left it;
    only if the renewal returns no error is the GET sent, after the POST.
    When it does not renew, it sends the GET alone, or nothing if the GET
    request cannot be built, and leaves the session as it was. No request is
    sent twice. The GET carries the API key of the configuration passed in
    and, as [Authorization], the access token of the session the client
    holds when [doHTTPGet] returns: the renewed one after a renewal. *)
Theorem doHTTPGet_requests
    (env : Env) (n : nat) (c : Client) (url : string) (config : Config) (data : Body) :
  let r := run env n (doHTTPGet c url config data) in
  let c' := fst (fst r) in
  let post := sessionPost c (RefreshBody (RefreshToken (hydrao c))) in
  let get := getRequest (hydrao c') url config data in
  let renewal := run env (5 + n) (RefreshSession c) in
  (renews (snd r) = true ->
   match snd (fst renewal) with
   | Some e =>
       fst r = (fst (fst renewal), inr e) /\
       sent (snd r) = sent (snd renewal) /\
       (sent (snd r) = [] \/ sent (snd r) = [post])
   | None =>
       sent (snd r) = [post; get] /\ hydrao c' = hydrao (fst (fst renewal))
   end) /\
  (renews (snd r) = false ->
   hydrao c' = hydrao c /\
   match env _ n (NewRequestCheck "GET" url data) with
   | Some e => fst r = (c, inr e) /\ sent (snd r) = []
   | None => sent (snd r) = [get]
   end).
Proof.
  unfold doHTTPGet, RefreshSession, session_request, doHTTPPost, NewRequest,
    processHTTPResponse, decodeSessionInfo, do. cbn.
  answer env.
  1: split; [discriminate|auto].
  due.
  - split; [intros _|discriminate].
    answer env.
    1: auto.
    rewrite post_headers.
    answer env.
    2: auto.
    answer env.
    1: auto.
    answer env.
    1: auto.
    rewrite get_headers.
    answer env; auto.
  - rewrite get_headers.
    answer env; split; try discriminate; auto.
Qed.

(** The answer to the last request of a run that [http.Client.Do] was
    given. *)
Definition last_answer (tr : list occurrence) : option (Response + error) :=
  fold_left (fun acc o =>
               match o with
               | Occ e x =>
                   match e in event X return X -> option (Response + error) with
                   | ClientDo _ => fun r => Some r
                   | _ => fun _ => acc
                   end x
               end) tr None.

(** What [GetShowerheads] returns. With an error the slice returned is nil;
    without one it is the client's own [showerHeads] field. When the last
    exchange ended in a transport error or in a status other than 200, that is
    the error returned (for a status, the bad-return-code error with that
    status), and neither the memory nor the client's slice has changed; when
    no request could be sent at all, the client is as it was. *)
Theorem GetShowerheads_result (env : Env) (n : nat) (c : Client) (mem : Heap) :
  let r := run env n (GetShowerheads c mem) in
  let c' := fst (fst (fst r)) in
  let mem' := snd (fst (fst r)) in
  let l := fst (snd (fst r)) in
  let err := snd (snd (fst r)) in
  (err = None -> l = showerHeads c') /\
  (err <> None -> l = None) /\
  match last_answer (snd r) with
  | Some (inl resp) =>
      StatusCode resp <> 200 ->
      err = Some (BadHTTPReturnCode (StatusCode resp)) /\
      mem' = mem /\ showerHeads c' = showerHeads c
  | Some (inr e) => err = Some e /\ mem' = mem /\ showerHeads c' = showerHeads c
  | None => err <> None /\ mem' = mem /\ c' = c
  end.
Proof.
  unfold GetShowerheads, doHTTPGet, RefreshSession, session_request, doHTTPPost,
    NewRequest, processHTTPResponse, decodeSessionInfo, decodeSlice, do. cbn.
  answer env.
  1: repeat split; congruence.
  due.
  - answer env.
    1: repeat split; congruence.
    rewrite post_headers.
    answer env.
    2: repeat split; congruence.
    answer env.
    1: repeat split; congruence.
    answer env.
    1: { apply negb_false_iff, Z.eqb_eq in Est. repeat split; congruence. }
    rewrite get_headers.
    answer env.
    2: repeat split; congruence.
    answer env.
    1: repeat split; congruence.
    apply negb_false_iff, Z.eqb_eq in Est0.
    match goal with
    | |- context [decodeShowerHeads ?d ?l ?m] =>
        destruct (decodeShowerHeads d l m) as [[? ?] [?|]]
    end; cbn; repeat split; congruence.
  - rewrite get_headers.
    answer env.
    2: repeat split; congruence.
    answer env.
    1: repeat split; congruence.
    apply negb_false_iff, Z.eqb_eq in Est.
    match goal with
    | |- context [decodeShowerHeads ?d ?l ?m] =>
        destruct (decodeShowerHeads d l m) as [[? ?] [?|]]
    end; cbn; repeat split; congruence.
Qed.

Lemma GetShowerheads_changes (env : Env) (n : nat) (c : Client) (mem : Heap) :
  let r := run env n (GetShowerheads c mem) in
  let c' := fst (fst (fst r)) in
  let mem' := snd (fst (fst r)) in
  let err := snd (snd (fst r)) in
  (mem' = mem /\ showerHeads c' = showerHeads c /\ err <> None) \/
  exists resp d,
    last_answer (snd r) = Some (inl resp) /\
    StatusCode resp = 200 /\
    In (Occ (ParseShowerHeads (RespBody resp)) d) (snd r) /\
    decodeShowerHeads d (showerHeads c) mem = ((showerHeads c', mem'), err).
Proof.
  unfold GetShowerheads, doHTTPGet, RefreshSession, session_request, doHTTPPost,
    NewRequest, processHTTPResponse, decodeSessionInfo, decodeSlice, do. cbn.
  answer env.
  1: left; repeat split; congruence.
  due.
  - answer env.
    1: left; repeat split; congruence.
    rewrite post_headers.
    answer env.
    2: left; repeat split; congruence.
    answer env.
    1: left; repeat split; congruence.
    answer env.
    1: left; repeat split; congruence.
    rewrite get_headers.
    answer env.
    2: left; repeat split; congruence.
    answer env.
    1: left; repeat split; congruence.
    apply negb_false_iff, Z.eqb_eq in Est0.
    right. exists resp0.
    match goal with
    | |- context [decodeShowerHeads ?d ?l ?m] =>
        exists d; destruct (decodeShowerHeads d l m) as [[? ?] [?|]]
    end; cbn; (split; [reflexivity|]); (split; [assumption|]);
      (split; [|reflexivity]); auto 20.
  - rewrite get_headers.
    answer env.
    2: left; repeat split; congruence.
    answer env.
    1: left; repeat split; congruence.
    apply negb_false_iff, Z.eqb_eq in Est.
    right. exists resp.
    match goal with
    | |- context [decodeShowerHeads ?d ?l ?m] =>
        exists d; destruct (decodeShowerHeads d l m) as [[? ?] [?|]]
    end; cbn; (split; [reflexivity|]); (split; [assumption|]);
      (split; [|reflexivity]); auto 20.
Qed.

(** The document an occurrence carries, when it is one of parsing a body. *)
Definition parsed (o : occurrence) : option Document :=
  match o with
  | Occ e x =>
      match e in event X return X -> option Document with
      | ParseShowerHeads _ => fun d => Some d
      | _ => fun _ => None
      end x
  end.

Ltac parsed_in H :=
  cbn [In] in H;
  repeat (destruct H as [H|H];
          [apply (f_equal parsed) in H; cbn [parsed] in H; try discriminate H|]);
  try contradiction.

Lemma GetShowerheads_null (env : Env) (n : nat) (c : Client) (mem : Heap) (body : string) :
  let r := run env n (GetShowerheads c mem) in
  In (Occ (ParseShowerHeads body) Null) (snd r) ->
  snd (fst (fst r)) = mem /\ showerHeads (fst (fst (fst r))) = showerHeads c /\
  snd (snd (fst r)) = None /\ fst (snd (fst r)) = showerHeads c.
Proof.
  unfold GetShowerheads, doHTTPGet, RefreshSession, session_request, doHTTPPost,
    NewRequest, processHTTPResponse, decodeSessionInfo, decodeSlice, do. cbn.
  repeat first [ rewrite post_headers | rewrite get_headers | answer env | due ].
  all: try match goal with
           | |- context [decodeShowerHeads ?d ?l ?m] =>
               destruct (decodeShowerHeads d l m) as [[? ?] [?|]] eqn:Edecode; cbn
           end.
  all: intros H; parsed_in H.
  all: injection H as H; rewrite H in Edecode; cbn in Edecode;
    inversion Edecode; subst; repeat split; reflexivity.
Qed.

(** The memory behind the device records and the client's slice change in
    one way only: a GET answered with status 200 whose body is decoded into
    the slice the client already holds, over the memory as it is. What the
    client holds afterwards, the memory and the error are then exactly the
    decoder's results. When the body is the JSON [null], that is: the slice
    and the memory as they were and no error, and the slice returned is the
    one the client held. *)
Theorem GetShowerheads_decodes_in_place (env : Env) (n : nat) (c : Client) (mem : Heap) :
  let r := run env n (GetShowerheads c mem) in
  let c' := fst (fst (fst r)) in
  let mem' := snd (fst (fst r)) in
  let l := fst (snd (fst r)) in
  let err := snd (snd (fst r)) in
  ((mem' = mem /\ showerHeads c' = showerHeads c /\ err <> None) \/
   exists resp d,
     last_answer (snd r) = Some (inl resp) /\
     StatusCode resp = 200 /\
     In (Occ (ParseShowerHeads (RespBody resp)) d) (snd r) /\
     decodeShowerHeads d (showerHeads c) mem = ((showerHeads c', mem'), err)) /\
  (forall body,
      In (Occ (ParseShowerHeads body) Null) (snd r) ->
      mem' = mem /\ showerHeads c' = showerHeads c /\ err = None /\ l = showerHeads c).
Proof.
  cbv zeta. split; [apply GetShowerheads_changes|].
  intros body. apply GetShowerheads_null.
Qed.

(** Every response received has its body closed, once, and nothing is closed
    that was not received: in [NewSession] and [RefreshSession], and in
    [GetShowerheads] with the renewal it may contain. *)
Theorem bodies_closed (env : Env) (n : nat) (c : Client) (mem : Heap) :
  closed (snd (run env n (NewSession c))) = received (snd (run env n (NewSession c))) /\
  closed (snd (run env n (RefreshSession c))) =
    received (snd (run env n (RefreshSession c))) /\
  closed (snd (run env n (GetShowerheads c mem))) =
    received (snd (run env n (GetShowerheads c mem))).
Proof.
  assert (Hs : forall data,
             closed (snd (run env n (session_request c data))) =
             received (snd (run env n (session_request c data)))).
  { intros data.
    unfold session_request, doHTTPPost, NewRequest, processHTTPResponse,
      decodeSessionInfo, do. cbn.
    answer env; [reflexivity|].
    rewrite post_headers.
    answer env; [|reflexivity].
    answer env; [reflexivity|].
    answer env; reflexivity. }
  split; [apply Hs|]. split; [apply Hs|].
  unfold GetShowerheads, doHTTPGet, RefreshSession, session_request, doHTTPPost,
    NewRequest, processHTTPResponse, decodeSessionInfo, decodeSlice, do. cbn.
  answer env; [reflexivity|].
  due.
  - answer env; [reflexivity|].
    rewrite post_headers.
    answer env; [|reflexivity].
    answer env; [reflexivity|].
    answer env; [reflexivity|].
    rewrite get_headers.
    answer env; [|reflexivity].
    answer env; [reflexivity|].
    match goal with
    | |- context [decodeShowerHeads ?d ?l ?m] =>
        destruct (decodeShowerHeads d l m) as [[? ?] [?|]]
    end; reflexivity.
  - rewrite get_headers.
    answer env; [|reflexivity].
    answer env; [reflexivity|].
    match goal with
    | |- context [decodeShowerHeads ?d ?l ?m] =>
        destruct (decodeShowerHeads d l m) as [[? ?] [?|]]
    end; reflexivity.
Qed.

(** A client that holds the session [NewClient] made, because it never
    logged in or because its login failed before anything was decoded, is
    always due for a renewal: its first GET starts by renewing, with an empty
    refresh token, and does not log in. *)
Theorem unauthenticated_get_renews
    (env : Env) (n : nat) (config cfg : Config) (c : Client) (url : string) (data : Body) :
  hydrao c = hydrao (NewClient config) ->
  env _ n (NewRequestCheck "GET" url data) = None ->
  - 100 * Second < env _ (S n) TimeNow ->
  let r := run env n (doHTTPGet c url cfg data) in
  renews (snd r) = true /\
  (sent (snd r) = [] \/
   hd_error (sent (snd r)) =
     Some {| Method := "POST"; URL := authURL; Header := jsonHeaders (ApiKey config);
             ReqBody := RefreshBody "" |}).
Proof.
  intros Hc Hreq Hnow.
  assert (Hdue : (Sub (env _ (S n) TimeNow) (TokenRefresh (hydrao c))
                  >? renewalThreshold (hydrao c)) = true).
  { apply elapsed_gt_threshold; rewrite Hc; cbn.
    - unfold int16; lia.
    - unfold Second in *; lia. }
  unfold doHTTPGet, RefreshSession, session_request, doHTTPPost, NewRequest,
    processHTTPResponse, decodeSessionInfo, do. cbn.
  rewrite Hreq. cbn. rewrite Hdue. cbn.
  split; [reflexivity|].
  answer env; [auto|].
  rewrite post_headers, Hc. right. reflexivity.
Qed.

(** Login, then a GET within the token's lifetime less 100 s of the login:
    the GET is sent at once, without a renewal, carrying the access token the
    login stored, and the session stays as the login left it. *)
Theorem login_then_get
    (env env' : Env) (n n' : nat) (c : Client) (url : string) (config : Config)
    (data : Body) :
  let r := fst (run env n (NewSession c)) in
  snd r = None ->
  int16 (ExpiresIn (hydrao (fst r))) ->
  env' _ n' (NewRequestCheck "GET" url data) = None ->
  env' _ (S n') TimeNow - env _ n TimeNow
    <= ExpiresIn (hydrao (fst r)) * Second - 100 * Second ->
  let r' := run env' n' (doHTTPGet (fst r) url config data) in
  renews (snd r') = false /\
  sent (snd r') = [getRequest (hydrao (fst r)) url config data] /\
  hydrao (fst (fst r')) = hydrao (fst r).
Proof.
  intros r Hok H16 Hreq Hage.
  pose proof (session_request_outcome env n c
                (LoginBody (Email (Cfg (hydrao c))) (Password (Cfg (hydrao c))))) as Hout.
  unfold SessionOutcome in Hout. fold (NewSession c) in Hout. fold r in Hout.
  rewrite Hok in Hout. destruct Hout as (resp & s & _ & _ & _ & _ & Hs & _).
  assert (Hdue : (Sub (env' _ (S n') TimeNow) (TokenRefresh (hydrao (fst r)))
                  >? renewalThreshold (hydrao (fst r))) = false).
  { destruct (Sub _ _ >? _) eqn:E; [|reflexivity].
    apply elapsed_gt_threshold in E; [|exact H16].
    assert (Ht : TokenRefresh (hydrao (fst r)) = env _ n TimeNow)
      by (rewrite Hs; reflexivity).
    rewrite Ht in E. unfold Second in *. lia. }
  generalize dependent (fst r). clear r Hok. intros c1 H16 Hage Hs Hdue.
  unfold doHTTPGet, NewRequest, do. cbn.
  rewrite Hreq. cbn. rewrite Hdue. cbn. rewrite get_headers.
  answer env'; repeat split; reflexivity.
Qed.

(** [GetShowerheads] keeps the memory in order: it changes it through the
    decoder only, and what it returns is nil or the client's own slice. *)
Lemma GetShowerheads_ok (env : Env) (n : nat) (c : Client) (mem : Heap) :
  heap_ok mem -> slice_ok mem (showerHeads c) ->
  let r := fst (run env n (GetShowerheads c mem)) in
  heap_ok (snd (fst r)) /\ extends mem (snd (fst r)) /\
  slice_ok (snd (fst r)) (showerHeads (fst (fst r))) /\
  slice_ok (snd (fst r)) (fst (snd r)).
Proof.
  intros H Hs.
  assert (Hsame : forall c', showerHeads c' = showerHeads c ->
            heap_ok mem /\ extends mem mem /\ slice_ok mem (showerHeads c') /\
            slice_ok mem None).
  { intros c' ->. split; [exact H|]. split; [apply extends_refl|]. split; [exact Hs|exact I]. }
  assert (Hdec : forall d c', showerHeads c' = showerHeads c ->
            let res := decodeShowerHeads d (showerHeads c') mem in
            heap_ok (snd (fst res)) /\ extends mem (snd (fst res)) /\
            slice_ok (snd (fst res)) (fst (fst res))).
  { intros d c' ->. apply decodeShowerHeads_ok; assumption. }
  unfold GetShowerheads, doHTTPGet, RefreshSession, session_request, doHTTPPost,
    NewRequest, processHTTPResponse, decodeSessionInfo, decodeSlice, do. cbn.
  answer env.
  1: apply Hsame; reflexivity.
  due.
  - answer env.
    1: apply Hsame; reflexivity.
    rewrite post_headers.
    answer env.
    2: apply Hsame; reflexivity.
    answer env.
    1: apply Hsame; reflexivity.
    answer env.
    1: apply Hsame; reflexivity.
    rewrite get_headers.
    answer env.
    2: apply Hsame; reflexivity.
    answer env.
    1: apply Hsame; reflexivity.
    match goal with
    | |- context [decodeShowerHeads ?d ?l ?m] =>
        pose proof (Hdec d c eq_refl) as Hd; cbv zeta in Hd;
        destruct (decodeShowerHeads d l m) as [[? ?] [?|]]
    end; cbn in Hd |- *; destruct Hd as (D1 & D2 & D3);
      (split; [exact D1|]); (split; [exact D2|]); (split; [exact D3|]);
      first [exact D3 | exact I].
  - rewrite get_headers.
    answer env.
    2: apply Hsame; reflexivity.
    answer env.
    1: apply Hsame; reflexivity.
    match goal with
    | |- context [decodeShowerHeads ?d ?l ?m] =>
        pose proof (Hdec d c eq_refl) as Hd; cbv zeta in Hd;
        destruct (decodeShowerHeads d l m) as [[? ?] [?|]]
    end; cbn in Hd |- *; destruct Hd as (D1 & D2 & D3);
      (split; [exact D1|]); (split; [exact D2|]); (split; [exact D3|]);
      first [exact D3 | exact I].
Qed.

(** Among pointers that lead to structs, the loop stops exactly at a nil
    one. *)
Lemma reach_nil (mem : Heap) (ps : list (option Ref)) :
  Forall (cell_ok (List.length (structs mem))) ps ->
  (snd (reach mem ps) = true <-> In None ps) /\
  (snd (reach mem ps) = false -> List.length (fst (reach mem ps)) = List.length ps).
Proof.
  induction 1 as [|p ps Hp _ [IH1 IH2]]; cbn [reach].
  - split; [split; [discriminate|intros []]|reflexivity].
  - destruct p as [r|].
    + cbn [cell_ok] in Hp. unfold deref.
      destruct (nth_error (structs mem) r) as [v|] eqn:Hr.
      * cbn [fst snd List.length]. split.
        -- rewrite IH1. split; [intros Hn; right; exact Hn|].
           intros [Hn|Hn]; [discriminate|exact Hn].
        -- intros Hn. rewrite (IH2 Hn). reflexivity.
      * apply nth_error_None in Hr. lia.
    + cbn [fst snd]. split; [split; [left; reflexivity|reflexivity]|discriminate].
Qed.

(** *** Concrete runs of the client *)

(** A session decoder that stores a fresh token pair with a one hour
    lifetime. *)
Definition storeToken (body : string) (s : SessionInfo) : SessionInfo * option error :=
  ({| AccessToken := "fresh"; RefreshToken := "again"; ExpiresIn := 3600;
      TokenRefresh := TokenRefresh s; Cfg := Cfg s |}, None).

Lemma unauthenticated_get_renews_witness :
  let env := constEnv t0 upstreamOK storeToken emptyArray in
  let r := run env 0 (doHTTPGet (NewClient demoConfig) showerheadsURL demoConfig EmptyBody) in
  renews (snd r) = true /\
  (sent (snd r) = [] \/
   hd_error (sent (snd r)) =
     Some {| Method := "POST"; URL := authURL; Header := jsonHeaders (ApiKey demoConfig);
             ReqBody := RefreshBody "" |}).
Proof.
  intros env.
  apply (unauthenticated_get_renews env 0 demoConfig demoConfig (NewClient demoConfig)
           showerheadsURL EmptyBody).
  - reflexivity.
  - reflexivity.
  - vm_compute. reflexivity.
Defined.

Lemma login_then_get_witness :
  let env := constEnv t0 upstreamOK storeToken emptyArray in
  let env' := constEnv (t0 + 3500 * Second) upstreamOK storeToken emptyArray in
  let r := fst (run env 0 (NewSession (NewClient demoConfig))) in
  let r' := run env' 0 (doHTTPGet (fst r) showerheadsURL demoConfig EmptyBody) in
  snd r = None /\
  renews (snd r') = false /\
  sent (snd r') = [getRequest (hydrao (fst r)) showerheadsURL demoConfig EmptyBody] /\
  hydrao (fst (fst r')) = hydrao (fst r).
Proof.
  intros env env' r r'.
  split; [reflexivity|].
  apply (login_then_get env env' 0 0 (NewClient demoConfig) showerheadsURL demoConfig
           EmptyBody).
  - reflexivity.
  - vm_compute. split; discriminate.
  - reflexivity.
  - vm_compute. discriminate.
Defined.

End Hydrao.

(** ** UTF-8 validity, as [utf8.ValidString] decides it

    [prometheus.NewConstMetric] refuses label values that are not valid
    UTF-8. *)

Module UTF8.

Open Scope N_scope.

Definition between (lo hi b : N) : bool := (lo <=? b) && (b <=? hi).

Definition cont (b : N) : bool := between 128 191 b.

(** The range of the second byte, by lead byte (RFC 3629). *)
Definition second (b0 b1 : N) : bool :=
  if b0 =? 224 then between 160 191 b1
  else if b0 =? 237 then between 128 159 b1
  else if b0 =? 240 then between 144 191 b1
  else if b0 =? 244 then between 128 143 b1
  else cont b1.

Fixpoint valid (l : list N) : bool :=
  match l with
  | [] => true
  | b0 :: r0 =>
      if b0 <? 128 then valid r0
      else
        match r0 with
        | [] => false
        | b1 :: r1 =>
            if between 194 223 b0 then cont b1 && valid r1
            else
              match r1 with
              | [] => false
              | b2 :: r2 =>
                  if between 224 239 b0 then second b0 b1 && cont b2 && valid r2
                  else
                    match r2 with
                    | [] => false
                    | b3 :: r3 =>
                        between 240 244 b0 && second b0 b1 && cont b2 && cont b3
                        && valid r3
                    end
              end
        end
  end.

Definition ValidString (s : string) : bool :=
  valid (map N_of_ascii (list_ascii_of_string s)).

End UTF8.

(** ** The collector ([internal/collector]) *)

Module Collector.

Import Hydrao.

(** *** Descriptors and metrics *)

(** A [prometheus.Desc]: the fully qualified name, the help text and the
    names of the variable labels. *)
Record Desc : Type := NewDesc {
  fqName : string;
  help : string;
  variableLabels : list string
}.

Definition metricPrefix : string := "hydrao_".

Definition hydraoUpDesc : Desc :=
  NewDesc (metricPrefix ++ "up")
    "Zero if there was an error during the last refresh try." [].

Definition refreshIntervalDesc : Desc :=
  NewDesc (metricPrefix ++ "refresh_interval_seconds")
    "Contains the configured refresh interval in seconds. This is provided as a convenience for calculations with the cache update time."
    [].

Definition refreshPrefix : string := metricPrefix ++ "last_refresh_".

Definition refreshTimestampDesc : Desc :=
  NewDesc (refreshPrefix ++ "time")
    "Contains the time of the last refresh try, successful or not." [].

Definition refreshDurationDesc : Desc :=
  NewDesc (metricPrefix ++ refreshPrefix ++ "duration_seconds")
    "Contains the time it took for the last refresh to complete, even if it was unsuccessful."
    [].

Definition cacheTimestampDesc : Desc :=
  NewDesc (metricPrefix ++ "cache_updated_time")
    "Contains the time of the cached data." [].

Definition showerHeadsLabels : list string := ["device_uuid"; "type"; "label"].

Definition showerHeadsPrefix : string := metricPrefix ++ "showersheads_".

Definition showerHeadDesc : Desc :=
  NewDesc (showerHeadsPrefix ++ "device") "Contains showerheads information"
    showerHeadsLabels.

Definition updatedDesc : Desc :=
  NewDesc (showerHeadsPrefix ++ "updated") "Timestamp of last update"
    showerHeadsLabels.

Definition showerHeadRefShowerDurationDesc : Desc :=
  NewDesc (showerHeadsPrefix ++ "ref_shower_duration") "Duration of reference shower"
    showerHeadsLabels.

Definition showerHeadRefFlowDesc : Desc :=
  NewDesc (showerHeadsPrefix ++ "ref_flow") "Flow of reference shower"
    showerHeadsLabels.

Definition showerHeadAvgFlowDesc : Desc :=
  NewDesc (showerHeadsPrefix ++ "avg_flow") "Average flow for the last 10 showers"
    showerHeadsLabels.

Definition showerHeadLastSyncIsCompleteDesc : Desc :=
  NewDesc (showerHeadsPrefix ++ "last_sync_is_complete") "Last sync is complete"
    showerHeadsLabels.

Definition showerHeadThresholdRequestDesc : Desc :=
  NewDesc (showerHeadsPrefix ++ "threshold_request") "Threshold request"
    (showerHeadsLabels ++ ["color"]).

Definition showersLabels : list string := ["device_uuid"; "shower_id"].

Definition showersPrefix : string := metricPrefix ++ "showers_".

Definition showerFlowDesc : Desc :=
  NewDesc (showersPrefix ++ "flow") "Flow of the shower" showersLabels.

Definition showerDurationDesc : Desc :=
  NewDesc (showersPrefix ++ "duration") "Duration of the shower" showersLabels.

Definition showerTemperatureDesc : Desc :=
  NewDesc (showersPrefix ++ "temperature") "Temperature of the shower" showersLabels.

Definition showerVolumeDesc : Desc :=
  NewDesc (showersPrefix ++ "volume") "Volume of the shower" showersLabels.

Definition showerSoapingTimeDesc : Desc :=
  NewDesc (showersPrefix ++ "soaping_time") "Soaping time of the shower" showersLabels.

(** A constant gauge: descriptor, value, label values. *)
Record Metric : Type := {
  desc : Desc;
  value : float;
  labelValues : list string
}.

#[local] Set Warnings "-register-all".

Inductive logval : Type :=
| LStr (s : string)
| LDur (d : Duration)
| LErr (e : option error)
| LData (l : ShowerHeads)
| LDesc (d : Desc)
| LSprintf (format : string) (args : list logval).

(** What a call leaves behind: a metric on the channel or a line in the
    log. *)
Inductive output : Type :=
| Sent (m : Metric)
| Logged (lvl : Level) (keyvals : list logval).

(** [prometheus.NewConstMetric]: the number of label values must be the
    number of variable labels, and every value valid UTF-8. *)
Definition NewConstMetric (d : Desc) (v : float) (lvs : list string) : Metric + error :=
  if negb (Nat.eqb (List.length lvs) (List.length (variableLabels d)))
  then inr (LibError "inconsistent label cardinality")
  else if negb (forallb UTF8.ValidString lvs)
  then inr (LibError "label value is not valid UTF-8")
  else inl {| desc := d; value := v; labelValues := lvs |}.

(** [sendMetric]; the gauge value type is the only one used. The log line
    names [updatedDesc] whatever the descriptor, as the code does. *)
Definition sendMetric (d : Desc) (v : float) (lvs : list string) : list output :=
  match NewConstMetric d v lvs with
  | inr err =>
      [Logged Error [LStr "msg";
                     LSprintf "Error creating %s metric: %s" [LDesc updatedDesc; LErr (Some err)]]]
  | inl m => [Sent m]
  end.

Definition convertTime (t : Time) : float :=
  if IsZero t then 0%float else float64_of_Z (Unix t).

(** *** The collector's state *)

(** The fields of [HydraoCollector] that change or are read; the logger, the
    clock and [getShowerheads] are the environment. *)
Record HydraoCollector : Type := {
  refreshInterval : Duration;
  lastRefresh : Time;
  lastRefreshError : option error;
  lastRefreshDuration : Duration;
  cacheTimestamp : Time;
  cachedShowerHeadsData : ShowerHeads
}.

(** [New]: only [refreshInterval] is set, to the untyped constant 10; the
    other fields have their zero values. *)
Definition New : HydraoCollector :=
  {| refreshInterval := 10;
     lastRefresh := 0;
     lastRefreshError := None;
     lastRefreshDuration := 0;
     cacheTimestamp := 0;
     cachedShowerHeadsData := None |}.

Definition set_lastRefresh (c : HydraoCollector) (t : Time) : HydraoCollector :=
  {| refreshInterval := refreshInterval c; lastRefresh := t;
     lastRefreshError := lastRefreshError c;
     lastRefreshDuration := lastRefreshDuration c;
     cacheTimestamp := cacheTimestamp c;
     cachedShowerHeadsData := cachedShowerHeadsData c |}.

Definition set_lastRefreshError (c : HydraoCollector) (e : option error) : HydraoCollector :=
  {| refreshInterval := refreshInterval c; lastRefresh := lastRefresh c;
     lastRefreshError := e;
     lastRefreshDuration := lastRefreshDuration c;
     cacheTimestamp := cacheTimestamp c;
     cachedShowerHeadsData := cachedShowerHeadsData c |}.

Definition set_lastRefreshDuration (c : HydraoCollector) (d : Duration) : HydraoCollector :=
  {| refreshInterval := refreshInterval c; lastRefresh := lastRefresh c;
     lastRefreshError := lastRefreshError c;
     lastRefreshDuration := d;
     cacheTimestamp := cacheTimestamp c;
     cachedShowerHeadsData := cachedShowerHeadsData c |}.

Definition set_cacheTimestamp (c : HydraoCollector) (t : Time) : HydraoCollector :=
  {| refreshInterval := refreshInterval c; lastRefresh := lastRefresh c;
     lastRefreshError := lastRefreshError c;
     lastRefreshDuration := lastRefreshDuration c;
     cacheTimestamp := t;
     cachedShowerHeadsData := cachedShowerHeadsData c |}.

Definition set_cachedShowerHeadsData (c : HydraoCollector) (l : ShowerHeads) : HydraoCollector :=
  {| refreshInterval := refreshInterval c; lastRefresh := lastRefresh c;
     lastRefreshError := lastRefreshError c;
     lastRefreshDuration := lastRefreshDuration c;
     cacheTimestamp := cacheTimestamp c;
     cachedShowerHeadsData := l |}.

(** The result of [getShowerheads()]. *)
Definition FetchResult : Type := (ShowerHeads * option error)%type.

Section WithDecoder.

(** [json.Unmarshal] into a nil [[]hydrao.Threshold]: the slice it leaves
    and its error. *)
Variable Unmarshal : string -> list Threshold * option error.

(** *** [Collect] and its helpers *)

Definition deviceGauges (showerhead : ShowerHead) (device_uuid showerHeadType label : string)
  : list output :=
  (sendMetric showerHeadDesc 1 [device_uuid; showerHeadType; label]
   ++ sendMetric updatedDesc (convertTime (LastSyncDate showerhead))
        [device_uuid; showerHeadType; label]
   ++ sendMetric showerHeadRefShowerDurationDesc
        (float64_of_Z (RefShowerDuration showerhead)) [device_uuid; showerHeadType; label]
   ++ sendMetric showerHeadRefFlowDesc
        (float64_of_Z (PreviousFlow showerhead)) [device_uuid; showerHeadType; label]
   ++ sendMetric showerHeadAvgFlowDesc (Flow showerhead) [device_uuid; showerHeadType; label]
   ++ sendMetric showerHeadLastSyncIsCompleteDesc
        (float64_of_Z (IsLastSyncComplete showerhead)) [device_uuid; showerHeadType; label])%list.

Definition thresholdGauges (thresholds : list Threshold)
    (device_uuid showerHeadType label : string) : list output :=
  flat_map (fun threshold =>
              sendMetric showerHeadThresholdRequestDesc (Liter threshold)
                [device_uuid; showerHeadType; label; Color threshold])
           thresholds.

Definition showerGauges (shower : Shower) : list output :=
  (sendMetric showerFlowDesc (sw_Flow shower) [sw_DeviceUUID shower; ShowerID shower]
   ++ sendMetric showerDurationDesc (sw_Duration shower) [sw_DeviceUUID shower; ShowerID shower]
   ++ sendMetric showerTemperatureDesc (Temperature shower)
        [sw_DeviceUUID shower; ShowerID shower]
   ++ sendMetric showerVolumeDesc (Volume shower) [sw_DeviceUUID shower; ShowerID shower]
   ++ sendMetric showerSoapingTimeDesc (SoapingTime shower)
        [sw_DeviceUUID shower; ShowerID shower])%list.

(** [collectShowerHeadData]: the six device gauges, the decoding of the
    threshold document with its error logged, one gauge per threshold left in
    the slice, five gauges per shower. *)
Definition collectShowerHeadData (showerhead : ShowerHead)
    (device_uuid showerHeadType label : string) : list output :=
  let (thresholds, err) := Unmarshal (ThresholdRequest showerhead) in
  (deviceGauges showerhead device_uuid showerHeadType label
   ++ match err with
      | Some e =>
          [Logged Error [LStr "msg";
                         LSprintf "Error unmarshalling thresholds: %s" [LErr (Some e)]]]
      | None => []
      end
   ++ thresholdGauges thresholds device_uuid showerHeadType label
   ++ flat_map showerGauges (Showers showerhead))%list.

Definition upValue (c : HydraoCollector) : float :=
  if IsZero (lastRefresh c) || match lastRefreshError c with Some _ => true | None => false end
  then 0%float else 1%float.

(** Lines 184-198 of [Collect]: whether [go c.RefreshData(now)] is issued,
    and the four bookkeeping gauges. *)
Definition Collect_head (c : HydraoCollector) (now : Time) : bool * list output :=
  let launch := Sub now (lastRefresh c) >=? refreshInterval c in
  (launch,
   ([Logged Debug [LStr "msg"; LStr "Prometheus Collect"]]
    ++ (if launch then [Logged Debug [LStr "msg"; LStr "Refresh Datas"]] else [])
    ++ sendMetric hydraoUpDesc (upValue c) []
    ++ sendMetric refreshIntervalDesc (Seconds (refreshInterval c)) []
    ++ sendMetric refreshTimestampDesc (convertTime (lastRefresh c)) []
    ++ sendMetric refreshDurationDesc (Seconds (lastRefreshDuration c)) [])%list).

(** Line 203, under the read lock. *)
Definition Collect_timestamp (ts : Time) : list output :=
  sendMetric cacheTimestampDesc (convertTime ts) [].

(** Lines 204-212, under the read lock: the loop follows the pointers of the
    slice into the memory as it is when the loop runs. It reads a field of
    each element before anything else, so at a nil element it panics: what
    it has sent until then has been sent. *)
Definition Collect_data (mem : Heap) (data : ShowerHeads) : list output :=
  (Logged Debug [LStr "msg"; LStr "Cached ShowerHeads Data %s"; LData data]
   :: match data with
      | Some _ =>
          flat_map (fun showerHead =>
                      collectShowerHeadData showerHead (DeviceUUID showerHead)
                        (Type_ showerHead) (Label showerHead)) (records mem data)
      | None => []
      end)%list.

(** Whether the loop panics. *)
Definition Collect_panics (mem : Heap) (data : ShowerHeads) : bool :=
  nil_reached mem data.

(** [Collect] run against one state of the collector and of the memory:
    whether a refresh task is launched (with [now] as its argument) and what
    is sent and logged, until [Collect] returns or panics. [Collect] returns
    no new state: it assigns to no field. *)
Definition Collect (c : HydraoCollector) (mem : Heap) (now : Time) : bool * list output :=
  (fst (Collect_head c now),
   (snd (Collect_head c now)
    ++ Collect_timestamp (cacheTimestamp c)
    ++ Collect_data mem (cachedShowerHeadsData c))%list).

(** *** [RefreshData], statement by statement *)

(** Lines 217-222: the attempt is recorded; [start] is the clock reading the
    deferred call is given. *)
Definition RefreshData_begin (c : HydraoCollector) (now : Time)
  : HydraoCollector * list output :=
  (set_lastRefresh c now,
   [Logged Debug [LStr "Refreshing data. Time since last refresh: %s";
                  LDur (Sub now (lastRefresh c))]]).

(** Lines 224-230: the result of the fetch is recorded. *)
Definition RefreshData_fetched (c : HydraoCollector) (r : FetchResult)
  : HydraoCollector * list output :=
  (set_lastRefreshError c (snd r),
   match snd r with
   | Some e => [Logged Error [LStr "Error during showerheads refresh: %s"; LErr (Some e)]]
   | None => []
   end).

(** Lines 234-235, under the write lock. *)
Definition RefreshData_commit (c : HydraoCollector) (now : Time) (data : ShowerHeads)
  : HydraoCollector :=
  set_cachedShowerHeadsData (set_cacheTimestamp c now) data.

(** The deferred function of line 221, which runs last. *)
Definition RefreshData_end (c : HydraoCollector) (start finish : Time) : HydraoCollector :=
  set_lastRefreshDuration c (Sub finish start).

(** [RefreshData] run to completion without interference: [start] and
    [finish] are the two clock readings, [r] what the fetch returns. *)
Definition RefreshData (c : HydraoCollector) (now start finish : Time) (r : FetchResult)
  : HydraoCollector :=
  let c := fst (RefreshData_begin c now) in
  let c := fst (RefreshData_fetched c r) in
  let c := match snd r with
           | Some _ => c
           | None => RefreshData_commit c now (fst r)
           end in
  RefreshData_end c start finish.

Definition metrics_of (out : list output) : list Metric :=
  flat_map (fun o => match o with Sent m => [m] | Logged _ _ => [] end) out.

(** *** Scrapes and refresh tasks, interleaved

    The program as [main] wires it: [getShowerheads] is the client's
    [GetShowerheads]. [Collect] runs on the goroutine of each scrape;
    [go c.RefreshData(now)] detaches a task. All work on the one collector,
    the one client and the one memory. A thread is a program point with its
    local variables. The unsynchronised head of [Collect] (lines 184-198)
    runs as one step when the scrape arrives; the fetch of a task takes
    effect in one step, when it returns; the parts of [Collect] and
    [RefreshData] that take [cacheLock] run one statement per step. A task
    at [RefreshLock] is about to call [Lock]; at [RefreshLockWaiting] it is
    inside [Lock], announced and waiting for the readers to leave. A scrape
    at [CollectRLock] is about to call [RLock]; at [CollectRLockBlocked] it
    is held inside [RLock] by a writer. A scrape whose loop panics runs its
    deferred [RUnlock] ([CollectPanicking]) and leaves [Collect] by the
    panic; what the caller does with it is not the collector's, and the
    other threads are let go on. *)

Inductive thread : Type :=
| Finished
| Panicked
| RefreshStart (now : Time)
| RefreshFetching (now start : Time)
| RefreshLock (now start : Time) (data : ShowerHeads)
| RefreshLockWaiting (now start : Time) (data : ShowerHeads)
| RefreshWriteTimestamp (now start : Time) (data : ShowerHeads)
| RefreshWriteData (now start : Time) (data : ShowerHeads)
| RefreshUnlock (start : Time)
| RefreshDeferred (start : Time)
| CollectRLock (out : list output)
| CollectRLockBlocked (out : list output)
| CollectReadTimestamp (out : list output)
| CollectReadData (out : list output) (ts : Time)
| CollectRUnlock (out : list output) (ts : Time) (data : ShowerHeads)
| CollectPanicking (out : list output) (ts : Time) (data : ShowerHeads).

(** A [sync.RWMutex]. [Lock] excludes other writers, announces the writer
    and waits until the readers that hold the lock have released it: the
    lock is [waiting] from the announcement on and has its [writer] once they
    have. [RLock] takes the lock at once unless a writer holds it or waits
    for it; then the reader is [blocked], until that writer's [Unlock], which
    hands the lock to all the blocked readers before another writer can
    announce itself. *)
Record RWMutex : Type := {
  writer : bool;
  readers : nat;
  waiting : bool;
  blocked : nat
}.

(** What a scrape delivered, with the cache timestamp and the snapshot it
    read, and whether it ended in a panic. *)
Record Scraped : Type := {
  delivered : list output;
  seenTimestamp : Time;
  seenData : ShowerHeads;
  panicked : bool
}.

(** The collector, its lock, the client, the memory and the threads, with a
    record of what happened: the log of the refresh tasks, the successful
    fetches (each with the [now] of its task), the scrapes that have left
    [Collect], the clock readings of the scrapes. *)
Record World : Type := {
  coll : HydraoCollector;
  cacheLock : RWMutex;
  client : Client;
  memory : Heap;
  threads : list thread;
  tasklog : list output;
  fetched : list (Time * ShowerHeads);
  scraped : list Scraped;
  scrapeTimes : list Time
}.

(** The start of the program: the client [main] has built (and tried to
    open a session for) and the collector as constructed. *)
Definition init (cl : Client) : World :=
  {| coll := New;
     cacheLock := {| writer := false; readers := 0; waiting := false; blocked := 0 |};
     client := cl;
     memory := emptyHeap;
     threads := [];
     tasklog := [];
     fetched := [];
     scraped := [];
     scrapeTimes := [] |}.

(** A scrape arrives; a thread runs its next statement, reading the clock if
    the statement does; the fetch of a task returns, [env] being what the
    world answered to [GetShowerheads]. *)
Inductive action : Type :=
| Scrape (now : Time)
| Run (i : nat) (clock : Time)
| Fetched (i : nat) (env : Env).

Fixpoint set_nth (i : nat) (t : thread) (l : list thread) : list thread :=
  match l, i with
  | [], _ => []
  | _ :: l', O => t :: l'
  | x :: l', S i' => x :: set_nth i' t l'
  end.

(** A blocked reader that is handed the lock. *)
Definition wake (t : thread) : thread :=
  match t with
  | CollectRLockBlocked out => CollectReadTimestamp out
  | _ => t
  end.

(** The step of thread [t]; [None] while it waits for the lock or for its
    fetch, or when it has left its function. *)
Definition thread_step (w : World) (i : nat) (t : thread) (clock : Time) : option World :=
  let upd c l ths t' lg s :=
    Some {| coll := c; cacheLock := l; client := client w; memory := memory w;
            threads := set_nth i t' ths;
            tasklog := (tasklog w ++ lg)%list; fetched := fetched w;
            scraped := (scraped w ++ s)%list; scrapeTimes := scrapeTimes w |} in
  let c := coll w in
  let l := cacheLock w in
  let ths := threads w in
  match t with
  | Finished => None
  | Panicked => None
  | RefreshStart now =>
      upd (fst (RefreshData_begin c now)) l ths (RefreshFetching now clock)
          (snd (RefreshData_begin c now)) []
  | RefreshFetching now start => None
  | RefreshLock now start data =>
      if writer l || waiting l then None
      else if Nat.eqb (readers l) 0
      then upd c {| writer := true; readers := readers l; waiting := false;
                    blocked := blocked l |} ths
               (RefreshWriteTimestamp now start data) [] []
      else upd c {| writer := false; readers := readers l; waiting := true;
                    blocked := blocked l |} ths
               (RefreshLockWaiting now start data) [] []
  | RefreshLockWaiting now start data =>
      if Nat.eqb (readers l) 0
      then upd c {| writer := true; readers := readers l; waiting := false;
                    blocked := blocked l |} ths
               (RefreshWriteTimestamp now start data) [] []
      else None
  | RefreshWriteTimestamp now start data =>
      upd (set_cacheTimestamp c now) l ths (RefreshWriteData now start data) [] []
  | RefreshWriteData now start data =>
      upd (set_cachedShowerHeadsData c data) l ths (RefreshUnlock start) [] []
  | RefreshUnlock start =>
      upd c {| writer := false; readers := blocked l; waiting := false; blocked := 0 |}
          (map wake ths) (RefreshDeferred start) [] []
  | RefreshDeferred start =>
      upd (RefreshData_end c start clock) l ths Finished [] []
  | CollectRLock out =>
      if writer l || waiting l
      then upd c {| writer := writer l; readers := readers l; waiting := waiting l;
                    blocked := S (blocked l) |} ths
               (CollectRLockBlocked out) [] []
      else upd c {| writer := false; readers := S (readers l); waiting := false;
                    blocked := blocked l |} ths
               (CollectReadTimestamp out) [] []
  | CollectRLockBlocked out => None
  | CollectReadTimestamp out =>
      upd c l ths (CollectReadData (out ++ Collect_timestamp (cacheTimestamp c))
                     (cacheTimestamp c)) [] []
  | CollectReadData out ts =>
      upd c l ths
          ((if Collect_panics (memory w) (cachedShowerHeadsData c)
            then CollectPanicking else CollectRUnlock)
             (out ++ Collect_data (memory w) (cachedShowerHeadsData c))%list ts
             (cachedShowerHeadsData c)) [] []
  | CollectRUnlock out ts data =>
      upd c {| writer := writer l; readers := Nat.pred (readers l); waiting := waiting l;
               blocked := blocked l |} ths Finished []
          [{| delivered := out; seenTimestamp := ts; seenData := data; panicked := false |}]
  | CollectPanicking out ts data =>
      upd c {| writer := writer l; readers := Nat.pred (readers l); waiting := waiting l;
               blocked := blocked l |} ths Panicked []
          [{| delivered := out; seenTimestamp := ts; seenData := data; panicked := true |}]
  end.

(** The fetch of thread [t] returns: [GetShowerheads] has run on the client
    and the memory, and lines 225-230 of [RefreshData] record its result. *)
Definition fetch_step (w : World) (i : nat) (t : thread) (env : Env) : option World :=
  match t with
  | RefreshFetching now start =>
      let res := fst (run env 0 (GetShowerheads (client w) (memory w))) in
      let r := snd res in
      Some {| coll := fst (RefreshData_fetched (coll w) r);
              cacheLock := cacheLock w;
              client := fst (fst res);
              memory := snd (fst res);
              threads := set_nth i (match snd r with
                                    | Some _ => RefreshDeferred start
                                    | None => RefreshLock now start (fst r)
                                    end) (threads w);
              tasklog := (tasklog w ++ snd (RefreshData_fetched (coll w) r))%list;
              fetched := (fetched w ++ match snd r with
                                       | Some _ => []
                                       | None => [(now, fst r)]
                                       end)%list;
              scraped := scraped w;
              scrapeTimes := scrapeTimes w |}
  | _ => None
  end.

(** A scrape runs the head of [Collect] and leaves the rest of [Collect],
    and the refresh task if one is launched, as new threads. *)
Definition step (w : World) (a : action) : option World :=
  match a with
  | Scrape now =>
      let h := Collect_head (coll w) now in
      Some {| coll := coll w; cacheLock := cacheLock w;
              client := client w; memory := memory w;
              threads := (threads w ++ CollectRLock (snd h)
                          :: (if fst h then [RefreshStart now] else []))%list;
              tasklog := tasklog w; fetched := fetched w; scraped := scraped w;
              scrapeTimes := (scrapeTimes w ++ [now])%list |}
  | Run i clock =>
      match nth_error (threads w) i with
      | Some t => thread_step w i t clock
      | None => None
      end
  | Fetched i env =>
      match nth_error (threads w) i with
      | Some t => fetch_step w i t env
      | None => None
      end
  end.

Fixpoint exec (w : World) (sched : list action) : option World :=
  match sched with
  | [] => Some w
  | a :: sched' =>
      match step w a with
      | Some w' => exec w' sched'
      | None => None
      end
  end.

Definition is_refresh (t : thread) : bool :=
  match t with
  | RefreshStart _ | RefreshFetching _ _ | RefreshLock _ _ _ | RefreshLockWaiting _ _ _
  | RefreshWriteTimestamp _ _ _ | RefreshWriteData _ _ _
  | RefreshUnlock _ | RefreshDeferred _ => true
  | _ => false
  end.


(** *** Facts about lists of threads *)

Lemma set_nth_length (i : nat) (t : thread) (l : list thread) :
  List.length (set_nth i t l) = List.length l.
Proof.
  revert i. induction l as [|x l IH]; intros [|i]; simpl; auto.
Qed.


Lemma nth_error_split_set (l : list thread) (i : nat) (t : thread) :
  nth_error l i = Some t ->
  exists l1 l2, l = (l1 ++ t :: l2)%list /\
                (forall t', set_nth i t' l = (l1 ++ t' :: l2)%list) /\
                (forall t', set_nth i t' (map wake l)
                            = (map wake l1 ++ t' :: map wake l2)%list).
Proof.
  revert i. induction l as [|x l IH]; intros [|i] H; simpl in H; try discriminate.
  - injection H as ->. exists [], l. repeat split; reflexivity.
  - destruct (IH i H) as (l1 & l2 & -> & Hset & Hadm).
    exists (x :: l1), l2. split; [reflexivity|]. split.
    + intros t'. simpl. rewrite Hset. reflexivity.
    + intros t'. simpl. rewrite Hadm. reflexivity.
Qed.

Lemma filter_length_app {A : Type} (f : A -> bool) (l1 l2 : list A) :
  List.length (filter f (l1 ++ l2)) =
  (List.length (filter f l1) + List.length (filter f l2))%nat.
Proof. rewrite filter_app, length_app. reflexivity. Qed.

(** The bookkeeping gauges carry no label, so [sendMetric] always sends
    them. *)
Lemma sendMetric_unlabelled (d : Desc) (v : float) :
  variableLabels d = [] ->
  sendMetric d v [] = [Sent {| desc := d; value := v; labelValues := [] |}].
Proof.
  intros H. unfold sendMetric, NewConstMetric. rewrite H. reflexivity.
Qed.

Lemma float_zero_one : 0%float <> 1%float.
Proof.
  intros H.
  assert (E : PrimFloat.eqb 0 1 = true) by (rewrite <- H; reflexivity).
  vm_compute in E. discriminate.
Qed.

(** *** The refresh task *)

(** The assignments of [RefreshData]. When the fetch returns an error
    neither the cached slice nor the cache timestamp is assigned, and the
    error, the time of the attempt and its duration are recorded; when the
    fetch succeeds the same bookkeeping is recorded and the slice and the
    cache timestamp are assigned. *)
Lemma RefreshData_assignments
    (c : HydraoCollector) (now start finish : Time) (data : ShowerHeads)
    (err : option error) :
  let c' := RefreshData c now start finish (data, err) in
  lastRefreshError c' = err /\
  lastRefresh c' = now /\
  lastRefreshDuration c' = Sub finish start /\
  match err with
  | Some _ =>
      cachedShowerHeadsData c' = cachedShowerHeadsData c /\
      cacheTimestamp c' = cacheTimestamp c
  | None =>
      cachedShowerHeadsData c' = data /\ cacheTimestamp c' = now
  end.
Proof.
  destruct err; simpl; repeat split; reflexivity.
Qed.

Lemma nth_error_set_nth_lt (l : list thread) (i : nat) (t : thread) :
  (i < List.length l)%nat -> nth_error (set_nth i t l) i = Some t.
Proof.
  revert i. induction l as [|x l IH]; intros [|i] H; simpl in *; try lia; auto.
  apply IH. lia.
Qed.

Ltac run_thread Hlen :=
  cbn [exec step threads];
  rewrite nth_error_set_nth_lt
    by (repeat first [rewrite set_nth_length | rewrite length_map]; exact Hlen);
  cbn [thread_step fetch_step coll cacheLock client memory threads writer readers
       waiting blocked orb negb Nat.eqb].

(** A task that runs alone goes through the statements of [RefreshData],
    with what [GetShowerheads] returns as the result of the fetch: the
    collector ends as [RefreshData] leaves it, the client and the memory as
    [GetShowerheads] leaves them, and the lock is free again, on the path
    that returns early as on the one that commits. *)
Lemma refresh_task_alone (w : World) (i : nat) (now start finish : Time) (env : Env) :
  nth_error (threads w) i = Some (RefreshStart now) ->
  cacheLock w = {| writer := false; readers := 0; waiting := false; blocked := 0 |} ->
  let res := fst (run env 0 (GetShowerheads (client w) (memory w))) in
  let r := snd res in
  exists w',
    exec w (Run i start :: Fetched i env
            :: match snd r with
               | Some _ => [Run i finish]
               | None => [Run i start; Run i start; Run i start; Run i start;
                          Run i finish]
               end) = Some w' /\
    coll w' = RefreshData (coll w) now start finish r /\
    nth_error (threads w') i = Some Finished /\
    cacheLock w' = cacheLock w /\
    client w' = fst (fst res) /\
    memory w' = snd (fst res).
Proof.
  intros Hi Hl res r.
  assert (Hlen : (i < List.length (threads w))%nat).
  { apply nth_error_Some. rewrite Hi. discriminate. }
  cbn [exec step]. rewrite Hi. cbn [thread_step].
  run_thread Hlen. fold res. fold r.
  unfold RefreshData. destruct (snd r) as [e|] eqn:Hr.
  - eexists. split; [|split; [|split; [|split; [|split]]]].
    + run_thread Hlen. reflexivity.
    + reflexivity.
    + cbn [threads]. apply nth_error_set_nth_lt. rewrite ?set_nth_length. exact Hlen.
    + reflexivity.
    + reflexivity.
    + reflexivity.
  - eexists. split; [|split; [|split; [|split; [|split]]]].
    + run_thread Hlen. rewrite Hl.
      cbn [writer readers waiting blocked orb negb Nat.eqb].
      do 4 run_thread Hlen. reflexivity.
    + reflexivity.
    + cbn [threads]. apply nth_error_set_nth_lt.
      repeat first [rewrite set_nth_length | rewrite length_map]. exact Hlen.
    + cbn [cacheLock]. symmetry. exact Hl.
    + reflexivity.
    + reflexivity.
Qed.

(** *** Launching refresh tasks *)




(** *** Scraping an empty cache *)

(** C9. With a nil or empty snapshot [Collect] sends the five bookkeeping
    gauges (up, refresh interval, time and duration of the last refresh, cache
    timestamp) and nothing else; and no step of a scrape, neither its arrival
    nor a later statement of [Collect], changes the collector, the client or
    the records in memory. Its loop has no element to panic at. *)
Theorem Collect_empty_snapshot (w : World) (now : Time) :
  pointers (memory w) (cachedShowerHeadsData (coll w)) = [] ->
  metrics_of (snd (Collect (coll w) (memory w) now)) =
    [ {| desc := hydraoUpDesc; value := upValue (coll w); labelValues := [] |};
      {| desc := refreshIntervalDesc; value := Seconds (refreshInterval (coll w));
         labelValues := [] |};
      {| desc := refreshTimestampDesc; value := convertTime (lastRefresh (coll w));
         labelValues := [] |};
      {| desc := refreshDurationDesc; value := Seconds (lastRefreshDuration (coll w));
         labelValues := [] |};
      {| desc := cacheTimestampDesc; value := convertTime (cacheTimestamp (coll w));
         labelValues := [] |} ] /\
  (forall w', step w (Scrape now) = Some w' ->
     coll w' = coll w /\ client w' = client w /\ memory w' = memory w) /\
  (forall i t clock w',
      nth_error (threads w) i = Some t -> is_refresh t = false ->
      step w (Run i clock) = Some w' ->
      coll w' = coll w /\ client w' = client w /\ memory w' = memory w) /\
  Collect_panics (memory w) (cachedShowerHeadsData (coll w)) = false.
Proof.
  intros Hempty. split; [|split; [|split]].
  - unfold Collect, Collect_head, Collect_timestamp, Collect_data, records.
    cbn [fst snd]. rewrite Hempty.
    rewrite !sendMetric_unlabelled by reflexivity.
    destruct (cachedShowerHeadsData (coll w));
      destruct (Sub now (lastRefresh (coll w)) >=? refreshInterval (coll w)); reflexivity.
  - intros w' [= <-]. repeat split.
  - intros i t clock w' Hi Ht. cbn [step]. rewrite Hi.
    destruct t; try discriminate Ht; cbn [thread_step]; try discriminate.
    1: destruct (writer (cacheLock w) || waiting (cacheLock w)).
    all: intros [= <-]; repeat split.
  - unfold Collect_panics, nil_reached. rewrite Hempty. reflexivity.
Qed.

(** *** Invariants of the interleaving *)

Lemma exec_preserves (P : World -> Prop) :
  (forall w a w', P w -> step w a = Some w' -> P w') ->
  forall sched w w', P w -> exec w sched = Some w' -> P w'.
Proof.
  intros Hstep. induction sched as [|a sched IH]; intros w w' Hw; simpl.
  - intros [= <-]. exact Hw.
  - destruct (step w a) as [w1|] eqn:E; [|discriminate].
    apply IH. eapply Hstep; eassumption.
Qed.

Definition in_write (t : thread) : bool :=
  match t with
  | RefreshWriteTimestamp _ _ _ | RefreshWriteData _ _ _ | RefreshUnlock _ => true
  | _ => false
  end.

Definition in_read (t : thread) : bool :=
  match t with
  | CollectReadTimestamp _ | CollectReadData _ _ | CollectRUnlock _ _ _
  | CollectPanicking _ _ _ => true
  | _ => false
  end.

Definition is_waiting (t : thread) : bool :=
  match t with
  | RefreshLockWaiting _ _ _ => true
  | _ => false
  end.

Definition is_blocked (t : thread) : bool :=
  match t with
  | CollectRLockBlocked _ => true
  | _ => false
  end.

Definition count (f : thread -> bool) (l : list thread) : nat :=
  List.length (filter f l).

(** A cache timestamp and a slice that belong together: the pair the
    collector is constructed with, or the [now] and the slice returned by one
    successful fetch. *)
Definition committed (f : list (Time * ShowerHeads)) (ts : Time) (data : ShowerHeads) : Prop :=
  (ts = 0 /\ data = None) \/ In (ts, data) f.

(** What each program point knows, given the cache fields [ts0] and [d0] of
    the collector and the fetches so far. *)
Definition thread_ok (ts0 : Time) (d0 : ShowerHeads) (f : list (Time * ShowerHeads))
    (t : thread) : Prop :=
  match t with
  | RefreshLock now _ data => In (now, data) f
  | RefreshLockWaiting now _ data => In (now, data) f
  | RefreshWriteTimestamp now _ data => In (now, data) f
  | RefreshWriteData now _ data => In (now, data) f /\ ts0 = now
  | RefreshUnlock _ => In (ts0, d0) f
  | CollectReadData out ts =>
      ts = ts0 /\ exists h, out = (h ++ Collect_timestamp ts)%list
  | CollectRUnlock out ts data | CollectPanicking out ts data =>
      ts = ts0 /\ data = d0 /\
      exists h mem, out = (h ++ Collect_timestamp ts ++ Collect_data mem data)%list
  | _ => True
  end.

Definition scraped_ok (f : list (Time * ShowerHeads)) (s : Scraped) : Prop :=
  committed f (seenTimestamp s) (seenData s) /\
  exists h mem,
    delivered s =
    (h ++ Collect_timestamp (seenTimestamp s) ++ Collect_data mem (seenData s))%list.

Definition lock_inv (w : World) : Prop :=
  count in_write (threads w) = (if writer (cacheLock w) then 1 else 0)%nat /\
  count in_read (threads w) = readers (cacheLock w) /\
  (writer (cacheLock w) = true -> readers (cacheLock w) = 0%nat) /\
  (writer (cacheLock w) = false ->
   committed (fetched w) (cacheTimestamp (coll w)) (cachedShowerHeadsData (coll w))) /\
  Forall (thread_ok (cacheTimestamp (coll w)) (cachedShowerHeadsData (coll w)) (fetched w))
         (threads w) /\
  Forall (scraped_ok (fetched w)) (scraped w) /\
  count is_waiting (threads w) = (if waiting (cacheLock w) then 1 else 0)%nat /\
  count is_blocked (threads w) = blocked (cacheLock w) /\
  (writer (cacheLock w) = true -> waiting (cacheLock w) = false).

Lemma count_app (f : thread -> bool) (l1 l2 : list thread) :
  count f (l1 ++ l2) = (count f l1 + count f l2)%nat.
Proof. apply filter_length_app. Qed.

Lemma count_cons (f : thread -> bool) (t : thread) (l : list thread) :
  count f (t :: l) = ((if f t then 1 else 0) + count f l)%nat.
Proof. unfold count. simpl. destruct (f t); reflexivity. Qed.

Lemma count_zero (f : thread -> bool) (l : list thread) :
  count f l = 0%nat -> Forall (fun t => f t = false) l.
Proof.
  induction l as [|t l IH]; intros H; constructor; rewrite count_cons in H;
    destruct (f t); try discriminate; auto.
Qed.

(** Handing the lock to the blocked readers makes readers of them and
    changes no other thread. *)
Lemma count_wake (l : list thread) :
  count in_write (map wake l) = count in_write l /\
  count in_read (map wake l) = (count in_read l + count is_blocked l)%nat /\
  count is_waiting (map wake l) = count is_waiting l /\
  count is_blocked (map wake l) = 0%nat.
Proof.
  induction l as [|t l (IH1 & IH2 & IH3 & IH4)]; [repeat split|].
  cbn [map]. rewrite !count_cons, IH1, IH2, IH3, IH4.
  destruct t; cbn; repeat split; lia.
Qed.

Lemma committed_mono (f g : list (Time * ShowerHeads)) (ts : Time) (d : ShowerHeads) :
  committed f ts d -> committed (f ++ g) ts d.
Proof.
  intros [H|H]; [left; exact H | right; apply in_or_app; auto].
Qed.

Lemma thread_ok_mono (ts0 : Time) (d0 : ShowerHeads) (f g : list (Time * ShowerHeads))
    (t : thread) :
  thread_ok ts0 d0 f t -> thread_ok ts0 d0 (f ++ g) t.
Proof.
  destruct t; simpl; auto; rewrite ?in_app_iff; tauto.
Qed.

Lemma thread_ok_wake (ts0 : Time) (d0 : ShowerHeads) (f : list (Time * ShowerHeads))
    (l : list thread) :
  Forall (thread_ok ts0 d0 f) l -> Forall (thread_ok ts0 d0 f) (map wake l).
Proof.
  induction 1 as [|t l Ht _ IH]; [constructor|].
  cbn [map]. constructor; [|exact IH]. destruct t; cbn; auto.
Qed.

(** Outside the two critical sections a thread knows nothing about the
    cache fields. *)
Lemma thread_ok_outside (ts0 ts1 : Time) (d0 d1 : ShowerHeads)
    (f : list (Time * ShowerHeads)) (t : thread) :
  in_write t = false -> in_read t = false ->
  thread_ok ts0 d0 f t -> thread_ok ts1 d1 f t.
Proof.
  destruct t; simpl; auto; discriminate.
Qed.

Lemma Forall_thread_ok_outside (ts0 ts1 : Time) (d0 d1 : ShowerHeads)
    (f : list (Time * ShowerHeads)) (l : list thread) :
  count in_write l = 0%nat -> count in_read l = 0%nat ->
  Forall (thread_ok ts0 d0 f) l -> Forall (thread_ok ts1 d1 f) l.
Proof.
  intros Hw Hr H. apply count_zero in Hw, Hr.
  rewrite Forall_forall in *. intros t Ht.
  apply (thread_ok_outside ts0 ts1 d0 d1); auto.
Qed.

Lemma scraped_ok_mono (f g : list (Time * ShowerHeads)) (s : Scraped) :
  scraped_ok f s -> scraped_ok (f ++ g) s.
Proof.
  intros [H1 H2]. split; [apply committed_mono; exact H1 | exact H2].
Qed.

Lemma lock_inv_init (cl : Client) : lock_inv (init cl).
Proof.
  unfold lock_inv, init; simpl. repeat split; try constructor; auto.
Qed.

Ltac lock_goal Hset :=
  unfold lock_inv;
  cbn [coll cacheLock threads fetched scraped writer readers waiting blocked
       RefreshData_begin RefreshData_end fst snd
       set_lastRefresh set_lastRefreshDuration
       set_cacheTimestamp set_cachedShowerHeadsData
       cacheTimestamp cachedShowerHeadsData];
  rewrite Hset, !count_app, !count_cons; cbn [in_write in_read is_waiting is_blocked];
  rewrite ?app_nil_r.

Lemma lock_inv_step (w : World) (a : action) (w' : World) :
  lock_inv w -> step w a = Some w' -> lock_inv w'.
Proof.
  intros (Hw & Hr & Hx & Hc & Ht & Hs & Hq & Hb & Hy) Hstep.
  destruct a as [now | i clock | i env].
  - injection Hstep as <-. unfold lock_inv. cbn [coll cacheLock threads fetched scraped].
    assert (Hnew : forall f, (f = in_write \/ f = in_read \/ f = is_waiting \/ f = is_blocked) ->
              count f (CollectRLock (snd (Collect_head (coll w) now))
                       :: (if fst (Collect_head (coll w) now) then [RefreshStart now] else []))
              = 0%nat).
    { intros f [-> | [-> | [-> | ->]]];
        destruct (fst (Collect_head (coll w) now)); reflexivity. }
    rewrite !count_app, !Hnew, !Nat.add_0_r by auto.
    repeat split; auto.
    apply Forall_app. split; [exact Ht|].
    constructor; [exact I|].
    match goal with |- Forall _ (if ?b then _ else _) => destruct b end;
      repeat constructor.
  - cbn [step] in Hstep.
    destruct (nth_error (threads w) i) as [t|] eqn:Hi; [|discriminate].
    destruct (nth_error_split_set _ _ _ Hi) as (l1 & l2 & Hth & Hset & Hadm).
    rewrite Hth in Hw, Hr, Ht, Hq, Hb.
    rewrite count_app, count_cons in Hw, Hr, Hq, Hb.
    apply Forall_app in Ht as [Ht1 Ht2].
    inversion Ht2 as [|? ? Htt Ht2']; subst.
    destruct (cacheLock w) as [wr rd wt bl] eqn:Hl. cbn [writer readers waiting blocked] in *.
    destruct t; cbn [thread_step] in Hstep; try discriminate;
      rewrite ?Hl in Hstep; cbn [writer readers waiting blocked] in Hstep;
      cbn [in_write in_read is_waiting is_blocked] in Hw, Hr, Hq, Hb.
    + (* RefreshStart *)
      injection Hstep as <-. lock_goal Hset.
      repeat match goal with |- _ /\ _ => split end; auto.
      apply Forall_app; split; [|constructor]; cbn [thread_ok]; auto.
    + (* RefreshLock *)
      destruct wr; [discriminate|]. destruct wt; [discriminate|]. cbn [orb] in Hstep.
      destruct rd as [|rd]; cbn [Nat.eqb] in Hstep; injection Hstep as <-; lock_goal Hset.
      * repeat match goal with |- _ /\ _ => split end; auto; try lia; try discriminate.
        apply Forall_app; split; [|constructor]; cbn [thread_ok] in *; auto.
      * repeat match goal with |- _ /\ _ => split end; auto; try lia; try discriminate.
        apply Forall_app; split; [|constructor]; cbn [thread_ok] in *; auto.
    + (* RefreshLockWaiting *)
      destruct rd as [|rd]; cbn [Nat.eqb] in Hstep; [|discriminate].
      injection Hstep as <-. lock_goal Hset.
      destruct wt; [|lia].
      destruct wr; [specialize (Hy eq_refl); discriminate|].
      repeat match goal with |- _ /\ _ => split end; auto; try lia; try discriminate.
      apply Forall_app; split; [|constructor]; cbn [thread_ok] in *; auto.
    + (* RefreshWriteTimestamp *)
      injection Hstep as <-. lock_goal Hset.
      destruct wr; [|lia]. pose proof (Hx eq_refl) as Hrd.
      repeat match goal with |- _ /\ _ => split end; auto; try lia; try discriminate.
      apply Forall_app. split; [|constructor].
      * eapply Forall_thread_ok_outside; [| |exact Ht1]; lia.
      * cbn [thread_ok] in *. auto.
      * eapply Forall_thread_ok_outside; [| |exact Ht2']; lia.
    + (* RefreshWriteData *)
      injection Hstep as <-. lock_goal Hset.
      destruct wr; [|lia]. pose proof (Hx eq_refl) as Hrd.
      repeat match goal with |- _ /\ _ => split end; auto; try lia; try discriminate.
      apply Forall_app. split; [|constructor].
      * eapply Forall_thread_ok_outside; [| |exact Ht1]; lia.
      * cbn [thread_ok] in *. destruct Htt as [Hin ->]. exact Hin.
      * eapply Forall_thread_ok_outside; [| |exact Ht2']; lia.
    + (* RefreshUnlock *)
      injection Hstep as <-. unfold lock_inv.
      cbn [coll cacheLock threads fetched scraped writer readers waiting blocked].
      rewrite Hadm, !count_app, !count_cons, ?app_nil_r.
      cbn [in_write in_read is_waiting is_blocked].
      destruct (count_wake l1) as (A1 & A2 & A3 & A4).
      destruct (count_wake l2) as (B1 & B2 & B3 & B4).
      rewrite A1, A2, A3, A4, B1, B2, B3, B4.
      destruct wr; [|lia]. pose proof (Hx eq_refl) as Hrd. rewrite (Hy eq_refl) in Hq.
      repeat match goal with |- _ /\ _ => split end; auto; try lia; try discriminate.
      * intros _. right. exact Htt.
      * apply Forall_app. split; [|constructor].
        -- apply thread_ok_wake. exact Ht1.
        -- exact I.
        -- apply thread_ok_wake. exact Ht2'.
    + (* RefreshDeferred *)
      injection Hstep as <-. lock_goal Hset.
      repeat match goal with |- _ /\ _ => split end; auto.
      apply Forall_app; split; [|constructor]; cbn [thread_ok]; auto.
    + (* CollectRLock *)
      destruct wr, wt; cbn [orb] in Hstep; injection Hstep as <-; lock_goal Hset;
        repeat match goal with |- _ /\ _ => split end; auto; try lia; try discriminate;
        try (apply Forall_app; split; [|constructor]; cbn [thread_ok]; now auto).
    + (* CollectReadTimestamp *)
      injection Hstep as <-. lock_goal Hset.
      repeat match goal with |- _ /\ _ => split end; auto.
      apply Forall_app. split; [|constructor]; auto.
      cbn [thread_ok]. split; [reflexivity|]. exists out. reflexivity.
    + (* CollectReadData *)
      destruct (Collect_panics (memory w) (cachedShowerHeadsData (coll w)));
        injection Hstep as <-; lock_goal Hset;
        (repeat match goal with |- _ /\ _ => split end; auto);
        (apply Forall_app; split; [|constructor]; auto);
        cbn [thread_ok] in *; destruct Htt as [-> [h ->]];
        (repeat split; exists h, (memory w); rewrite <- !app_assoc; reflexivity).
    + (* CollectRUnlock *)
      injection Hstep as <-. lock_goal Hset.
      repeat match goal with |- _ /\ _ => split end; auto; try lia.
      * intros H. specialize (Hx H). lia.
      * apply Forall_app; split; [|constructor]; cbn [thread_ok]; auto.
      * apply Forall_app. split; [exact Hs|]. constructor; [|constructor].
        cbn [thread_ok] in Htt. destruct Htt as (-> & -> & Hd).
        split; [|exact Hd]. cbn [seenTimestamp seenData].
        apply Hc. destruct wr; [|reflexivity]. specialize (Hx eq_refl). lia.
    + (* CollectPanicking *)
      injection Hstep as <-. lock_goal Hset.
      repeat match goal with |- _ /\ _ => split end; auto; try lia.
      * intros H. specialize (Hx H). lia.
      * apply Forall_app; split; [|constructor]; cbn [thread_ok]; auto.
      * apply Forall_app. split; [exact Hs|]. constructor; [|constructor].
        cbn [thread_ok] in Htt. destruct Htt as (-> & -> & Hd).
        split; [|exact Hd]. cbn [seenTimestamp seenData].
        apply Hc. destruct wr; [|reflexivity]. specialize (Hx eq_refl). lia.
  - cbn [step] in Hstep.
    destruct (nth_error (threads w) i) as [t|] eqn:Hi; [|discriminate].
    destruct (nth_error_split_set _ _ _ Hi) as (l1 & l2 & Hth & Hset & _).
    rewrite Hth in Hw, Hr, Ht, Hq, Hb.
    rewrite count_app, count_cons in Hw, Hr, Hq, Hb.
    apply Forall_app in Ht as [Ht1 Ht2].
    inversion Ht2 as [|? ? Htt Ht2']; subst.
    destruct t; unfold fetch_step in Hstep; try discriminate.
    cbn [in_write in_read is_waiting is_blocked] in Hw, Hr, Hq, Hb.
    remember (fst (run env 0 (GetShowerheads (client w) (memory w)))) as res eqn:Hres.
    clear Hres. destruct res as [cm r].
    injection Hstep as <-. unfold lock_inv.
    cbn [coll cacheLock threads fetched scraped RefreshData_fetched fst snd
         set_lastRefreshError cacheTimestamp cachedShowerHeadsData].
    rewrite Hset, !count_app, !count_cons.
    assert (Hcnt : forall f, (f = in_write \/ f = in_read \/ f = is_waiting \/ f = is_blocked) ->
                     f (match snd r with
                        | Some _ => RefreshDeferred start
                        | None => RefreshLock now start (fst r)
                        end) = false).
    { intros f [->|[->|[->| ->]]]; destruct (snd r); reflexivity. }
    rewrite !Hcnt by auto.
    repeat match goal with |- _ /\ _ => split end; auto.
    + intros H. apply committed_mono. auto.
    + apply Forall_app. split; [|constructor].
      * eapply Forall_impl; [|exact Ht1]. intros t. apply thread_ok_mono.
      * destruct (snd r); cbn [thread_ok]; [exact I|].
        apply in_or_app. right. left. reflexivity.
      * eapply Forall_impl; [|exact Ht2']. intros t. apply thread_ok_mono.
    + eapply Forall_impl; [|exact Hs]. intros s. apply scraped_ok_mono.
Qed.

Lemma lock_inv_reachable (cl : Client) (sched : list action) (w : World) :
  exec (init cl) sched = Some w -> lock_inv w.
Proof.
  apply (exec_preserves lock_inv lock_inv_step). apply lock_inv_init.
Qed.


(** *** The memory of the program *)

(** The slice a refresh task holds between its fetch and its commit. *)
Definition held (t : thread) : ShowerHeads :=
  match t with
  | RefreshLock _ _ data | RefreshLockWaiting _ _ data
  | RefreshWriteTimestamp _ _ data | RefreshWriteData _ _ data => data
  | _ => None
  end.

(** Every pointer in an array leads to a struct or is nil, and the slices
    of the client, of the cache and of the tasks lie within their arrays. *)
Definition heap_inv (w : World) : Prop :=
  heap_ok (memory w) /\
  slice_ok (memory w) (showerHeads (client w)) /\
  slice_ok (memory w) (cachedShowerHeadsData (coll w)) /\
  Forall (fun t => slice_ok (memory w) (held t)) (threads w).

Lemma held_wake (mem : Heap) (l : list thread) :
  Forall (fun t => slice_ok mem (held t)) l ->
  Forall (fun t => slice_ok mem (held t)) (map wake l).
Proof.
  induction 1 as [|t l Ht _ IH]; [constructor|].
  cbn [map]. constructor; [|exact IH]. destruct t; cbn; auto.
Qed.

Lemma heap_inv_init (cl : Client) : showerHeads cl = None -> heap_inv (init cl).
Proof.
  intros Hcl. unfold heap_inv, init; cbn. rewrite Hcl.
  repeat split; constructor.
Qed.

Lemma heap_inv_step (w : World) (a : action) (w' : World) :
  heap_inv w -> step w a = Some w' -> heap_inv w'.
Proof.
  intros (Hm & Hc & Hd & Ht) Hstep.
  destruct a as [now | i clock | i env].
  - injection Hstep as <-. unfold heap_inv. cbn [coll client memory threads].
    repeat match goal with |- _ /\ _ => split end; auto.
    apply Forall_app. split; [exact Ht|].
    constructor; [exact I|].
    match goal with |- Forall _ (if ?b then _ else _) => destruct b end;
      repeat constructor.
  - cbn [step] in Hstep.
    destruct (nth_error (threads w) i) as [t|] eqn:Hi; [|discriminate].
    destruct (nth_error_split_set _ _ _ Hi) as (l1 & l2 & Hth & Hset & Hadm).
    rewrite Hth in Ht.
    apply Forall_app in Ht as [Ht1 Ht2].
    inversion Ht2 as [|? ? Htt Ht2']; subst.
    assert (Hkeep : forall t', slice_ok (memory w) (held t') ->
              Forall (fun t => slice_ok (memory w) (held t)) (l1 ++ t' :: l2)).
    { intros t' Ht'. apply Forall_app. split; [exact Ht1|]. constructor; assumption. }
    destruct t; cbn [thread_step] in Hstep; try discriminate;
      repeat match type of Hstep with
             | (if ?b then _ else _) = _ => destruct b
             end;
      try discriminate; injection Hstep as <-; unfold heap_inv;
      cbn [coll client memory threads RefreshData_begin RefreshData_end fst snd
           set_lastRefresh set_lastRefreshDuration set_cacheTimestamp
           set_cachedShowerHeadsData cachedShowerHeadsData];
      rewrite ?Hset, ?Hadm;
      (repeat match goal with |- _ /\ _ => split end); auto;
      try (apply Hkeep; cbn [held] in *; now auto);
      try (apply Hkeep; destruct (Collect_panics (memory w) (cachedShowerHeadsData (coll w)));
           exact I).
    apply Forall_app. split; [apply held_wake; exact Ht1|].
    constructor; [exact I|]. apply held_wake. exact Ht2'.
  - cbn [step] in Hstep.
    destruct (nth_error (threads w) i) as [t|] eqn:Hi; [|discriminate].
    destruct (nth_error_split_set _ _ _ Hi) as (l1 & l2 & Hth & Hset & _).
    rewrite Hth in Ht.
    apply Forall_app in Ht as [Ht1 Ht2].
    inversion Ht2 as [|? ? Htt Ht2']; subst.
    destruct t; unfold fetch_step in Hstep; try discriminate.
    pose proof (GetShowerheads_ok env 0 (client w) (memory w) Hm Hc) as Hget.
    cbv zeta in Hget.
    remember (fst (run env 0 (GetShowerheads (client w) (memory w)))) as res eqn:Hres.
    clear Hres. destruct res as [[c' mem'] [data err]].
    cbn [fst snd] in Hget. destruct Hget as (G1 & G2 & G3 & G4).
    injection Hstep as <-. unfold heap_inv.
    cbn [coll client memory threads RefreshData_fetched fst snd
         set_lastRefreshError cachedShowerHeadsData].
    rewrite Hset.
    assert (Hup : forall l, Forall (fun t => slice_ok (memory w) (held t)) l ->
                            Forall (fun t => slice_ok mem' (held t)) l).
    { intros l Hl. eapply Forall_impl; [|exact Hl].
      intros t. apply slice_ok_extends. exact G2. }
    repeat match goal with |- _ /\ _ => split end; auto.
    + destruct err; cbn [fst snd cachedShowerHeadsData set_lastRefreshError];
        apply (slice_ok_extends (memory w)); assumption.
    + apply Forall_app. split; [apply Hup; exact Ht1|].
      constructor; [|apply Hup; exact Ht2'].
      destruct err; cbn [held]; [exact I|exact G4].
Qed.

Lemma heap_inv_reachable (cl : Client) (sched : list action) (w : World) :
  showerHeads cl = None -> exec (init cl) sched = Some w -> heap_inv w.
Proof.
  intros Hcl. apply (exec_preserves heap_inv heap_inv_step). apply heap_inv_init. exact Hcl.
Qed.

(** The program starts with a client that holds no slice. In every world it
    reaches, each pointer of the cached slice is nil or leads to a struct of
    the memory; the loop of [Collect] therefore panics exactly when the
    cached slice has a nil pointer, and otherwise has one record for each
    pointer. *)
Lemma cached_pointers_lead_to_records (cl : Client) (sched : list action) (w : World) :
  showerHeads cl = None ->
  exec (init cl) sched = Some w ->
  let ps := pointers (memory w) (cachedShowerHeadsData (coll w)) in
  Forall (fun p => match p with
                   | Some r => deref (memory w) r <> None
                   | None => True
                   end) ps /\
  (Collect_panics (memory w) (cachedShowerHeadsData (coll w)) = true <-> In None ps) /\
  (Collect_panics (memory w) (cachedShowerHeadsData (coll w)) = false ->
   List.length (records (memory w) (cachedShowerHeadsData (coll w))) = List.length ps).
Proof.
  intros Hcl Hexec ps.
  destruct (heap_inv_reachable cl sched w Hcl Hexec) as (Hm & _ & _ & _).
  pose proof (pointers_ok (memory w) (cachedShowerHeadsData (coll w)) Hm) as Hps.
  fold ps in Hps.
  split.
  - eapply Forall_impl; [|exact Hps]. intros [r|] Hr; [|exact I].
    cbn [cell_ok] in Hr. unfold deref. intros Hn. apply nth_error_None in Hn. lia.
  - unfold Collect_panics, nil_reached, records. fold ps.
    apply reach_nil. exact Hps.
Qed.

(** *** The refresh interval *)

(** The interval never changes, and the attempt time is the zero Time or the
    clock reading of a scrape. *)
Definition time_inv (w : World) : Prop :=
  refreshInterval (coll w) = refreshInterval New /\
  In (lastRefresh (coll w)) (0 :: scrapeTimes w) /\
  forall now, In (RefreshStart now) (threads w) -> In now (scrapeTimes w).

Lemma in_wake (l : list thread) (t : thread) :
  In t (map wake l) -> is_blocked t = false /\ (In t l \/ in_read t = true).
Proof.
  intros H. apply in_map_iff in H as (y & <- & Hy).
  destruct y; cbn; auto.
Qed.

Lemma time_inv_step (w : World) (a : action) (w' : World) :
  time_inv w -> step w a = Some w' -> time_inv w'.
Proof.
  intros (Hi & Hl & Ht) Hstep. destruct a as [now | i clock | i env].
  - injection Hstep as <-. unfold time_inv. cbn [coll threads scrapeTimes].
    split; [exact Hi|]. split.
    + destruct Hl as [Hl|Hl]; [left; exact Hl|right; apply in_or_app; auto].
    + intros n Hn. apply in_or_app. apply in_app_or in Hn as [Hn|Hn].
      * left. auto.
      * right. destruct Hn as [Hn|Hn]; [discriminate|].
        match type of Hn with In _ (if ?b then _ else _) => destruct b end;
          [|contradiction].
        destruct Hn as [[= ->]|[]]. left. reflexivity.
  - cbn [step] in Hstep.
    destruct (nth_error (threads w) i) as [t|] eqn:Hn; [|discriminate].
    destruct (nth_error_split_set _ _ _ Hn) as (l1 & l2 & Hth & Hset & Hadm).
    assert (Hkeep : forall t' n, t' <> RefreshStart n ->
              In (RefreshStart n) (l1 ++ t' :: l2) -> In n (scrapeTimes w)).
    { intros t' n Hne Hin. apply Ht. rewrite Hth.
      apply in_or_app. apply in_app_or in Hin as [Hin|[Hin|Hin]]; auto.
      - contradiction.
      - right. right. exact Hin. }
    assert (Hkeepa : forall t' n, t' <> RefreshStart n ->
              In (RefreshStart n) (map wake l1 ++ t' :: map wake l2) ->
              In n (scrapeTimes w)).
    { intros t' n Hne Hin. apply Ht. rewrite Hth.
      apply in_or_app. apply in_app_or in Hin as [Hin|[Hin|Hin]].
      - apply in_wake in Hin as (_ & [Hin|Hin]); [auto|discriminate].
      - contradiction.
      - apply in_wake in Hin as (_ & [Hin|Hin]); [|discriminate].
        right. right. exact Hin. }
    assert (Hself : forall n, t = RefreshStart n -> In n (scrapeTimes w)).
    { intros n ->. apply Ht. rewrite Hth. apply in_or_app. right. left. reflexivity. }
    destruct t; cbn [thread_step] in Hstep; try discriminate;
      repeat match type of Hstep with
             | context [if ?b then _ else _] => destruct b
             end; try discriminate.
    all: injection Hstep as <-; unfold time_inv;
      cbn [coll threads scrapeTimes RefreshData_begin RefreshData_end
           fst snd set_lastRefresh set_lastRefreshDuration
           set_cacheTimestamp set_cachedShowerHeadsData refreshInterval lastRefresh];
      rewrite ?Hset, ?Hadm;
      (split; [exact Hi|]; split;
       [first [exact Hl | right; apply Hself; reflexivity]
       |intros n; first [apply Hkeep | apply Hkeepa]; discriminate]).
  - cbn [step] in Hstep.
    destruct (nth_error (threads w) i) as [t|] eqn:Hn; [|discriminate].
    destruct (nth_error_split_set _ _ _ Hn) as (l1 & l2 & Hth & Hset & _).
    destruct t; unfold fetch_step in Hstep; try discriminate.
    remember (fst (run env 0 (GetShowerheads (client w) (memory w)))) as res eqn:Hres.
    clear Hres. destruct res as [cm r].
    injection Hstep as <-. unfold time_inv.
    cbn [coll threads scrapeTimes RefreshData_fetched fst snd set_lastRefreshError
         refreshInterval lastRefresh].
    rewrite Hset. split; [exact Hi|]. split; [exact Hl|].
    intros n Hin. apply Ht. rewrite Hth.
    apply in_or_app. apply in_app_or in Hin as [Hin|[Hin|Hin]]; auto.
    + destruct (snd r); discriminate.
    + right. right. exact Hin.
Qed.

Lemma time_inv_reachable (cl : Client) (sched : list action) (w : World) :
  exec (init cl) sched = Some w -> time_inv w.
Proof.
  apply (exec_preserves time_inv time_inv_step).
  unfold time_inv, init; simpl. repeat split; auto.
Qed.

#[local] Set Warnings "-inexact-float".

(** C10 (as the code has it). The interval is the constant 10, ten
    nanoseconds and not ten seconds, in the collector as constructed and in
    every reachable state; the interval gauge reports 1e-8 seconds; and a
    scrape that comes at least ten nanoseconds after the zero Time and after
    every earlier scrape passes the interval check, so it launches a refresh.
    Ten nanoseconds between a scrape and one earlier scrape are not enough:
    the check is against the attempt time, which a scrape in between may have
    had its task set. *)
Theorem refreshInterval_ten_nanoseconds
    (cl : Client) (sched : list action) (w : World) (now : Time) :
  exec (init cl) sched = Some w ->
  (forall t, In t (0 :: scrapeTimes w) -> now - t >= 10 * Nanosecond) ->
  refreshInterval New = 10 * Nanosecond /\
  refreshInterval New <> 10 * Second /\
  refreshInterval (coll w) = refreshInterval New /\
  In (Sent {| desc := refreshIntervalDesc; value := 1e-8%float; labelValues := [] |})
     (snd (Collect (coll w) (memory w) now)) /\
  Sub now (lastRefresh (coll w)) >= refreshInterval (coll w) /\
  fst (Collect (coll w) (memory w) now) = true.
Proof.
  intros Hexec Hgap.
  destruct (time_inv_reachable cl sched w Hexec) as (Hi & Hl & _).
  assert (Hsub : Sub now (lastRefresh (coll w)) >= refreshInterval (coll w)).
  { rewrite Hi. specialize (Hgap _ Hl). unfold Nanosecond in Hgap.
    apply Z.le_ge. apply Sub_ge; [unfold maxDuration|]; simpl; lia. }
  split; [reflexivity|]. split; [discriminate|].
  split; [exact Hi|]. split; [|split; [exact Hsub|]].
  - unfold Collect, Collect_head. cbn [snd fst]. rewrite Hi.
    rewrite (sendMetric_unlabelled refreshIntervalDesc) by reflexivity.
    rewrite !in_app_iff. simpl. auto 10.
  - unfold Collect, Collect_head. cbn [fst]. apply Z.geb_le. lia.
Qed.

(** *** The up gauge *)

(** A task that has run its first statement. *)
Definition started (t : thread) : bool :=
  match t with
  | RefreshFetching _ _ | RefreshLock _ _ _ | RefreshLockWaiting _ _ _
  | RefreshWriteTimestamp _ _ _ | RefreshWriteData _ _ _
  | RefreshUnlock _ | RefreshDeferred _ => true
  | _ => false
  end.

(** While a task is past its first statement the attempt time is the clock
    reading of a scrape. *)
Definition attempt_inv (w : World) : Prop :=
  time_inv w /\
  (In (lastRefresh (coll w)) (scrapeTimes w) \/
   Forall (fun t => started t = false) (threads w)).

Lemma attempt_inv_step (w : World) (a : action) (w' : World) :
  attempt_inv w -> step w a = Some w' -> attempt_inv w'.
Proof.
  intros [Htime Hatt] Hstep.
  split; [exact (time_inv_step w a w' Htime Hstep)|].
  destruct Htime as (_ & _ & Hnow).
  destruct a as [now | i clock | i env].
  - injection Hstep as <-. cbn [coll threads scrapeTimes].
    destruct Hatt as [H|H]; [left; apply in_or_app; auto|right].
    apply Forall_app. split; [exact H|]. constructor; [reflexivity|].
    match goal with |- Forall _ (if ?b then _ else _) => destruct b end;
      repeat constructor.
  - cbn [step] in Hstep.
    destruct (nth_error (threads w) i) as [t|] eqn:Hi; [|discriminate].
    destruct (nth_error_split_set _ _ _ Hi) as (l1 & l2 & Hth & Hset & Hadm).
    assert (Hself : In t (threads w)).
    { rewrite Hth. apply in_or_app. right. left. reflexivity. }
    assert (Hrest : forall t', started t' = false ->
              Forall (fun t => started t = false) (threads w) ->
              Forall (fun t => started t = false) (l1 ++ t' :: l2)).
    { intros t' Ht' H. rewrite Hth in H. apply Forall_app in H as [H1 H2].
      inversion H2; subst. apply Forall_app. split; [exact H1|]. constructor; assumption. }
    assert (Hnot : started t = true ->
              Forall (fun t => started t = false) (threads w) -> False).
    { intros Ht H. rewrite Forall_forall in H. specialize (H t Hself). congruence. }
    destruct t; cbn [thread_step] in Hstep; try discriminate;
      repeat match type of Hstep with
             | context [if ?b then _ else _] => destruct b
             end; try discriminate.
    all: injection Hstep as <-;
      cbn [coll threads scrapeTimes RefreshData_begin RefreshData_end
           fst snd set_lastRefresh set_lastRefreshDuration
           set_cacheTimestamp set_cachedShowerHeadsData lastRefresh];
      rewrite ?Hset.
    all: try (left; apply Hnow; exact Hself).
    all: destruct Hatt as [H|H]; [left; exact H|].
    all: try (exfalso; apply Hnot; [reflexivity|exact H]).
    all: right; apply Hrest; [reflexivity|exact H].
  - cbn [step] in Hstep.
    destruct (nth_error (threads w) i) as [t|] eqn:Hi; [|discriminate].
    assert (Hself : In t (threads w)) by (eapply nth_error_In; exact Hi).
    destruct t; unfold fetch_step in Hstep; try discriminate.
    injection Hstep as <-. cbn [coll threads scrapeTimes RefreshData_fetched fst
                                set_lastRefreshError lastRefresh].
    destruct Hatt as [H|H]; [left; exact H|].
    rewrite Forall_forall in H. specialize (H _ Hself). discriminate.
Qed.

Lemma attempt_inv_reachable (cl : Client) (sched : list action) (w : World) :
  exec (init cl) sched = Some w -> attempt_inv w.
Proof.
  apply (exec_preserves attempt_inv attempt_inv_step).
  split; [|right; constructor].
  unfold time_inv, init; simpl. repeat split; auto.
Qed.

(** C3 (as the code has it). The up gauge is 0 exactly when no refresh
    attempt has started yet (the attempt time is still the zero Time) or the
    error recorded last is not nil, and 1 otherwise; it is 0 for the
    collector as constructed. The error recorded is that of the fetch that
    returned last: in every state the program reaches (the scrapes not
    reading the zero Time), a fetch that returns records its error, and right
    then the gauge is 0 if it failed and 1 if it succeeded; no other step
    changes the error recorded; and the first statement of a task makes the
    gauge 1 when no error is recorded, before any fetch has returned. A
    refresh that runs from its first statement to its last without a
    statement of another task in between leaves the gauge at 0 if it failed
    and at 1 if it succeeded. *)
Theorem upValue_spec
    (c : HydraoCollector) (cl : Client) (sched : list action) (w : World)
    (now start finish : Time) (r : FetchResult) :
  exec (init cl) sched = Some w ->
  (forall t, In t (scrapeTimes w) -> IsZero t = false) ->
  (upValue c = 0%float <-> IsZero (lastRefresh c) = true \/ lastRefreshError c <> None) /\
  (upValue c = 1%float <-> ~ (IsZero (lastRefresh c) = true \/ lastRefreshError c <> None)) /\
  (forall mem t,
      In (Sent {| desc := hydraoUpDesc; value := upValue c; labelValues := [] |})
         (snd (Collect c mem t))) /\
  upValue New = 0%float /\
  (forall i env w',
      step w (Fetched i env) = Some w' ->
      let err := snd (snd (fst (run env 0 (GetShowerheads (client w) (memory w))))) in
      lastRefreshError (coll w') = err /\
      (err <> None -> upValue (coll w') = 0%float) /\
      (err = None -> upValue (coll w') = 1%float)) /\
  (forall a w',
      step w a = Some w' -> (forall i env, a <> Fetched i env) ->
      lastRefreshError (coll w') = lastRefreshError (coll w)) /\
  (forall i n clock w',
      nth_error (threads w) i = Some (RefreshStart n) ->
      step w (Run i clock) = Some w' ->
      lastRefreshError (coll w) = None -> upValue (coll w') = 1%float) /\
  (IsZero now = false ->
   (snd r <> None -> upValue (RefreshData c now start finish r) = 0%float) /\
   (snd r = None -> upValue (RefreshData c now start finish r) = 1%float)).
Proof.
  intros Hexec Hnz.
  assert (H01 := float_zero_one).
  destruct (attempt_inv_reachable cl sched w Hexec) as [(_ & _ & Hstart) Hatt].
  split; [|split; [|split; [|split; [|split; [|split; [|split]]]]]].
  - unfold upValue. split.
    + destruct (IsZero (lastRefresh c)); simpl; [auto|].
      destruct (lastRefreshError c); [right; discriminate|].
      intros H. symmetry in H. contradiction.
    + intros [H|H].
      * rewrite H. reflexivity.
      * destruct (lastRefreshError c); [|contradiction].
        rewrite orb_true_r. reflexivity.
  - unfold upValue. split.
    + destruct (IsZero (lastRefresh c)); simpl.
      * intros H. contradiction.
      * destruct (lastRefreshError c); [intros H; contradiction|].
        intros _ [H|H]; [discriminate|contradiction].
    + intros H. destruct (IsZero (lastRefresh c)); simpl.
      * exfalso. apply H. auto.
      * destruct (lastRefreshError c); [|reflexivity].
        exfalso. apply H. right. discriminate.
  - intros mem t. unfold Collect, Collect_head. cbn [snd fst].
    rewrite (sendMetric_unlabelled hydraoUpDesc) by reflexivity.
    rewrite !in_app_iff. simpl. auto 10.
  - reflexivity.
  - intros i env w' Hstep. cbn [step] in Hstep.
    destruct (nth_error (threads w) i) as [t|] eqn:Hi; [|discriminate].
    assert (Hself : In t (threads w)) by (eapply nth_error_In; exact Hi).
    destruct t; unfold fetch_step in Hstep; try discriminate.
    assert (Hlast : IsZero (lastRefresh (coll w)) = false).
    { destruct Hatt as [H|H]; [apply Hnz; exact H|].
      rewrite Forall_forall in H. specialize (H _ Hself). discriminate. }
    remember (fst (run env 0 (GetShowerheads (client w) (memory w)))) as res eqn:Hres.
    clear Hres. destruct res as [cm [d err]].
    injection Hstep as <-. cbn [coll RefreshData_fetched fst snd].
    split; [reflexivity|].
    unfold upValue. cbn [set_lastRefreshError lastRefresh lastRefreshError].
    rewrite Hlast. cbn [orb].
    destruct err; split; intros H;
      first [reflexivity | discriminate H | exfalso; apply H; reflexivity].
  - intros a w' Hstep Hother. destruct a as [n | i clock | i env].
    + injection Hstep as <-. reflexivity.
    + cbn [step] in Hstep.
      destruct (nth_error (threads w) i) as [t|]; [|discriminate].
      destruct t; cbn [thread_step] in Hstep; try discriminate;
        repeat match type of Hstep with
               | context [if ?b then _ else _] => destruct b
               end; try discriminate; injection Hstep as <-; reflexivity.
    + exfalso. apply (Hother i env). reflexivity.
  - intros i n clock w' Hi Hstep Herr. cbn [step] in Hstep. rewrite Hi in Hstep.
    cbn [thread_step] in Hstep. injection Hstep as <-.
    unfold upValue. cbn [coll RefreshData_begin fst set_lastRefresh lastRefresh
                         lastRefreshError].
    rewrite Herr, (Hnz n); [reflexivity|].
    apply Hstart. eapply nth_error_In. exact Hi.
  - intros Hnow. split.
    + destruct r as [data [e|]]; cbn [snd]; [intros _|intros H; contradiction].
      unfold upValue. simpl. rewrite orb_true_r. reflexivity.
    + destruct r as [data [e|]]; cbn [snd]; [discriminate|intros _].
      unfold upValue. simpl. rewrite Hnow. reflexivity.
Qed.

(** *** Threshold documents that do not decode *)

Definition deviceDescs : list Desc :=
  [showerHeadDesc; updatedDesc; showerHeadRefShowerDurationDesc; showerHeadRefFlowDesc;
   showerHeadAvgFlowDesc; showerHeadLastSyncIsCompleteDesc].

Definition showerDescs : list Desc :=
  [showerFlowDesc; showerDurationDesc; showerTemperatureDesc; showerVolumeDesc;
   showerSoapingTimeDesc].

Lemma sendMetric_valid (d : Desc) (v : float) (lvs : list string) :
  List.length lvs = List.length (variableLabels d) ->
  forallb UTF8.ValidString lvs = true ->
  sendMetric d v lvs = [Sent {| desc := d; value := v; labelValues := lvs |}].
Proof.
  intros Hlen Hvalid. unfold sendMetric, NewConstMetric.
  rewrite Hlen, Nat.eqb_refl, Hvalid. reflexivity.
Qed.

Lemma sendMetric_Sent (d : Desc) (v : float) (lvs : list string) (m : Metric) :
  In (Sent m) (sendMetric d v lvs) ->
  m = {| desc := d; value := v; labelValues := lvs |}.
Proof.
  unfold sendMetric. destruct (NewConstMetric d v lvs) as [m'|e] eqn:E; simpl.
  - intros [[= <-]|[]]. unfold NewConstMetric in E.
    destruct (negb _); [discriminate|]. destruct (negb _); [discriminate|].
    injection E as <-. reflexivity.
  - intros [H|[]]. discriminate.
Qed.

Lemma deviceGauges_valid (sh : ShowerHead) (u t l : string) (d : Desc) :
  forallb UTF8.ValidString [u; t; l] = true ->
  In d deviceDescs ->
  exists v, In (Sent {| desc := d; value := v; labelValues := [u; t; l] |})
               (deviceGauges sh u t l).
Proof.
  intros Hvalid Hd. unfold deviceGauges.
  rewrite !sendMetric_valid by (reflexivity || exact Hvalid).
  simpl in Hd.
  repeat (destruct Hd as [<-|Hd]; [eexists; simpl; eauto 10|]).
  contradiction.
Qed.

Lemma showerGauges_valid (s : Shower) (d : Desc) :
  forallb UTF8.ValidString [sw_DeviceUUID s; ShowerID s] = true ->
  In d showerDescs ->
  exists v, In (Sent {| desc := d; value := v;
                        labelValues := [sw_DeviceUUID s; ShowerID s] |})
               (showerGauges s).
Proof.
  intros Hvalid Hd. unfold showerGauges.
  rewrite !sendMetric_valid by (reflexivity || exact Hvalid).
  simpl in Hd.
  repeat (destruct Hd as [<-|Hd]; [eexists; simpl; eauto 10|]).
  contradiction.
Qed.

(** The threshold gauges of a record are those of the entries in the slice. *)
Lemma threshold_metrics (sh : ShowerHead) (u t l : string) (m : Metric) :
  In (Sent m) (collectShowerHeadData sh u t l) ->
  desc m = showerHeadThresholdRequestDesc ->
  exists th, In th (fst (Unmarshal (ThresholdRequest sh))) /\
             m = {| desc := showerHeadThresholdRequestDesc; value := Liter th;
                    labelValues := [u; t; l; Color th] |}.
Proof.
  unfold collectShowerHeadData.
  destruct (Unmarshal (ThresholdRequest sh)) as [ths err]. cbn [fst].
  rewrite !in_app_iff. intros [H|[H|[H|H]]] Hd.
  - unfold deviceGauges in H. rewrite !in_app_iff in H.
    repeat (destruct H as [H|H]; [apply sendMetric_Sent in H; subst m; discriminate Hd|]).
    apply sendMetric_Sent in H; subst m; discriminate Hd.
  - destruct err; simpl in H; [destruct H as [H|[]]; discriminate|contradiction].
  - unfold thresholdGauges in H. apply in_flat_map in H as (th & Hth & H).
    apply sendMetric_Sent in H. exists th. auto.
  - apply in_flat_map in H as (s & _ & H). unfold showerGauges in H.
    rewrite !in_app_iff in H.
    repeat (destruct H as [H|H]; [apply sendMetric_Sent in H; subst m; discriminate Hd|]).
    apply sendMetric_Sent in H; subst m; discriminate Hd.
Qed.

Lemma collectShowerHeadData_in_Collect (c : HydraoCollector) (mem : Heap) (now : Time)
    (sh : ShowerHead) (o : output) :
  In sh (records mem (cachedShowerHeadsData c)) ->
  In o (collectShowerHeadData sh (DeviceUUID sh) (Type_ sh) (Label sh)) ->
  In o (snd (Collect c mem now)).
Proof.
  intros Hsh Ho. unfold Collect, Collect_data. cbn [snd].
  rewrite !in_app_iff. right. right. right.
  destruct (cachedShowerHeadsData c) as [s|]; [|contradiction].
  apply in_flat_map. exists sh. auto.
Qed.

(** C8 (as the code has it). When the threshold document of a record that
    the loop of [Collect] reaches does not decode, the error is logged and
    the loop over the thresholds runs all the same: the threshold gauges sent
    for that record are exactly those of the entries the decoder left in the
    slice (one for each entry whose label values are valid UTF-8, and none
    that is not of such an entry), so none when it left none. The six device
    gauges of every record the loop reaches, before and after that one, and
    the five gauges of each of its showers are sent as for any other record
    (label values being valid UTF-8). The records the loop reaches are those
    of the snapshot up to its first nil element, where [Collect] panics; no
    threshold document has a part in that. *)
Theorem malformed_thresholds_contained
    (c : HydraoCollector) (mem : Heap) (now : Time) (sh : ShowerHead) (e : error) :
  In sh (records mem (cachedShowerHeadsData c)) ->
  snd (Unmarshal (ThresholdRequest sh)) = Some e ->
  let out := snd (Collect c mem now) in
  In (Logged Error [LStr "msg";
                    LSprintf "Error unmarshalling thresholds: %s" [LErr (Some e)]]) out /\
  (forall m,
      In (Sent m) (collectShowerHeadData sh (DeviceUUID sh) (Type_ sh) (Label sh)) ->
      desc m = showerHeadThresholdRequestDesc ->
      exists th, In th (fst (Unmarshal (ThresholdRequest sh))) /\
                 m = {| desc := showerHeadThresholdRequestDesc; value := Liter th;
                        labelValues := [DeviceUUID sh; Type_ sh; Label sh; Color th] |}) /\
  (forall th,
      In th (fst (Unmarshal (ThresholdRequest sh))) ->
      forallb UTF8.ValidString [DeviceUUID sh; Type_ sh; Label sh; Color th] = true ->
      In (Sent {| desc := showerHeadThresholdRequestDesc; value := Liter th;
                  labelValues := [DeviceUUID sh; Type_ sh; Label sh; Color th] |}) out) /\
  (forall sh' d,
      In sh' (records mem (cachedShowerHeadsData c)) ->
      forallb UTF8.ValidString [DeviceUUID sh'; Type_ sh'; Label sh'] = true ->
      In d deviceDescs ->
      exists v, In (Sent {| desc := d; value := v;
                            labelValues := [DeviceUUID sh'; Type_ sh'; Label sh'] |}) out) /\
  (forall sh' s d,
      In sh' (records mem (cachedShowerHeadsData c)) -> In s (Showers sh') ->
      forallb UTF8.ValidString [sw_DeviceUUID s; ShowerID s] = true ->
      In d showerDescs ->
      exists v, In (Sent {| desc := d; value := v;
                            labelValues := [sw_DeviceUUID s; ShowerID s] |}) out).
Proof.
  intros Hsh Herr out. subst out. split; [|split; [|split; [|split]]].
  - apply (collectShowerHeadData_in_Collect c mem now sh); auto.
    unfold collectShowerHeadData.
    destruct (Unmarshal (ThresholdRequest sh)) as [ths err]. cbn [snd] in Herr. subst err.
    rewrite !in_app_iff. right. left. left. reflexivity.
  - intros m. apply threshold_metrics.
  - intros th Hth Hvalid.
    apply (collectShowerHeadData_in_Collect c mem now sh); auto.
    unfold collectShowerHeadData.
    destruct (Unmarshal (ThresholdRequest sh)) as [ths err]. cbn [fst] in Hth.
    rewrite !in_app_iff. right. right. left.
    unfold thresholdGauges. apply in_flat_map. exists th. split; [exact Hth|].
    rewrite sendMetric_valid by (reflexivity || exact Hvalid). left. reflexivity.
  - intros sh' d Hsh' Hvalid Hd.
    destruct (deviceGauges_valid sh' _ _ _ d Hvalid Hd) as [v Hv].
    exists v. apply (collectShowerHeadData_in_Collect c mem now sh'); auto.
    unfold collectShowerHeadData.
    destruct (Unmarshal (ThresholdRequest sh')) as [ths err].
    rewrite !in_app_iff. left. exact Hv.
  - intros sh' s d Hsh' Hs Hvalid Hd.
    destruct (showerGauges_valid s d Hvalid Hd) as [v Hv].
    exists v. apply (collectShowerHeadData_in_Collect c mem now sh'); auto.
    unfold collectShowerHeadData.
    destruct (Unmarshal (ThresholdRequest sh')) as [ths err].
    rewrite !in_app_iff. right. right. right.
    apply in_flat_map. exists s. auto.
Qed.

(** *** What a scrape sends *)

(** [Describe]: the descriptors announced, in the order they are sent. *)
Definition Describe : list Desc :=
  [hydraoUpDesc; refreshIntervalDesc; refreshTimestampDesc; refreshDurationDesc;
   cacheTimestampDesc; showerHeadDesc; updatedDesc; showerHeadRefShowerDurationDesc;
   showerHeadRefFlowDesc; showerHeadAvgFlowDesc; showerHeadLastSyncIsCompleteDesc;
   showerHeadThresholdRequestDesc; showerFlowDesc; showerDurationDesc;
   showerTemperatureDesc; showerVolumeDesc; showerSoapingTimeDesc].

(** A metric the registry accepts from this collector: its descriptor was
    announced, and its label values are as many as the descriptor's labels and
    valid UTF-8. *)
Definition described (m : Metric) : Prop :=
  In (desc m) Describe /\
  List.length (labelValues m) = List.length (variableLabels (desc m)) /\
  forallb UTF8.ValidString (labelValues m) = true.

(** The log line [sendMetric] writes when the metric cannot be built. *)
Definition is_creation_error (o : output) : bool :=
  match o with
  | Logged Error [LStr _; LSprintf format _] =>
      String.eqb format "Error creating %s metric: %s"
  | _ => false
  end.

(** Sent or reported: what [out] holds of the two. *)
Definition tally (out : list output) : nat :=
  (List.length (metrics_of out) + List.length (filter is_creation_error out))%nat.

(** The calls of [sendMetric] that [collectShowerHeadData] makes for a
    record: six, one per threshold left by the decoder, five per shower. *)
Definition gauges_of (sh : ShowerHead) : nat :=
  (6 + List.length (fst (Unmarshal (ThresholdRequest sh))) + 5 * List.length (Showers sh))%nat.

Lemma sendMetric_cases (d : Desc) (v : float) (lvs : list string) :
  (sendMetric d v lvs = [Sent {| desc := d; value := v; labelValues := lvs |}] /\
   List.length lvs = List.length (variableLabels d) /\
   forallb UTF8.ValidString lvs = true) \/
  (exists e,
     sendMetric d v lvs =
     [Logged Error [LStr "msg";
                    LSprintf "Error creating %s metric: %s" [LDesc updatedDesc; LErr (Some e)]]]).
Proof.
  unfold sendMetric, NewConstMetric.
  destruct (Nat.eqb_spec (List.length lvs) (List.length (variableLabels d))) as [E|E];
    cbn [negb]; [|right; eexists; reflexivity].
  destruct (forallb UTF8.ValidString lvs) eqn:V; cbn [negb];
    [left; auto | right; eexists; reflexivity].
Qed.

Lemma metrics_of_app (a b : list output) :
  metrics_of (a ++ b) = (metrics_of a ++ metrics_of b)%list.
Proof. apply flat_map_app. Qed.

Lemma tally_app (a b : list output) : tally (a ++ b) = (tally a + tally b)%nat.
Proof.
  unfold tally. rewrite metrics_of_app, filter_app, !length_app. lia.
Qed.

Lemma tally_sendMetric (d : Desc) (v : float) (lvs : list string) :
  tally (sendMetric d v lvs) = 1%nat.
Proof.
  destruct (sendMetric_cases d v lvs) as [(-> & _)|[e ->]]; reflexivity.
Qed.

Lemma tally_flat_map {A : Type} (f : A -> list output) (g : A -> nat) (l : list A) :
  (forall a, tally (f a) = g a) ->
  tally (flat_map f l) = list_sum (map g l).
Proof.
  intros H. induction l as [|a l IH]; [reflexivity|].
  cbn [flat_map map list_sum]. rewrite tally_app, H, IH. reflexivity.
Qed.

Lemma tally_collectShowerHeadData (sh : ShowerHead) (u t l : string) :
  tally (collectShowerHeadData sh u t l) = gauges_of sh.
Proof.
  unfold collectShowerHeadData, gauges_of.
  destruct (Unmarshal (ThresholdRequest sh)) as [ths err]. cbn [fst].
  unfold deviceGauges, thresholdGauges.
  rewrite !tally_app, !tally_sendMetric.
  rewrite (tally_flat_map _ (fun _ => 1%nat)) by (intros; apply tally_sendMetric).
  rewrite (tally_flat_map _ (fun _ => 5%nat)).
  2: { intros s. unfold showerGauges. rewrite !tally_app, !tally_sendMetric. reflexivity. }
  assert (Hsum : forall (A : Type) (k : nat) (xs : list A),
             list_sum (map (fun _ => k) xs) = (k * List.length xs)%nat).
  { intros A k xs. unfold list_sum.
    induction xs as [|x xs IH]; cbn [map fold_right List.length]; [|rewrite IH]; lia. }
  rewrite !Hsum. destruct err; cbn; lia.
Qed.

(** What holds of every output of [Collect] once it holds of whatever
    [sendMetric] leaves for the descriptors [Collect] uses, and of the log. *)
Ltac in_Describe := unfold Describe; repeat (first [left; reflexivity | right]).

Lemma Collect_Forall (Q : output -> Prop) (c : HydraoCollector) (mem : Heap) (now : Time) :
  (forall d v lvs, In d Describe -> Forall Q (sendMetric d v lvs)) ->
  (forall lvl kv, Q (Logged lvl kv)) ->
  Forall Q (snd (Collect c mem now)).
Proof.
  intros Hsend Hlog.
  unfold Collect, Collect_head, Collect_timestamp, Collect_data. cbn [fst snd].
  rewrite !Forall_app. repeat split; try (apply Hsend; in_Describe).
  - repeat constructor; apply Hlog.
  - destruct (Sub now (lastRefresh c) >=? refreshInterval c); repeat constructor; apply Hlog.
  - constructor; [apply Hlog|].
    destruct (cachedShowerHeadsData c) as [s|]; [|constructor].
    apply Forall_flat_map. apply Forall_forall. intros sh _.
    unfold collectShowerHeadData.
    destruct (Unmarshal (ThresholdRequest sh)) as [ths err].
    unfold deviceGauges, thresholdGauges.
    rewrite !Forall_app. repeat split; try (apply Hsend; in_Describe).
    + destruct err; repeat constructor; apply Hlog.
    + apply Forall_flat_map. apply Forall_forall. intros th _. apply Hsend; in_Describe.
    + apply Forall_flat_map. apply Forall_forall. intros s' _.
      unfold showerGauges. rewrite !Forall_app. repeat split; apply Hsend; in_Describe.
Qed.

Lemma Forall_metrics_of (P : Metric -> Prop) (out : list output) :
  Forall (fun o => match o with Sent m => P m | Logged _ _ => True end) out ->
  Forall P (metrics_of out).
Proof.
  induction 1 as [|o out Ho _ IH]; [constructor|].
  destruct o; cbn; [constructor|]; assumption.
Qed.

(** Every metric a scrape sends is one the registry accepts: its descriptor
    is among those [Describe] announces, it has as many label values as the
    descriptor has labels, and they are valid UTF-8. The descriptors
    announced have pairwise different names. *)
Theorem Collect_metrics_described (c : HydraoCollector) (mem : Heap) (now : Time) :
  Forall described (metrics_of (snd (Collect c mem now))) /\
  NoDup (map fqName Describe).
Proof.
  split.
  - apply Forall_metrics_of. apply Collect_Forall; [|intros; exact I].
    intros d v lvs Hd.
    destruct (sendMetric_cases d v lvs) as [(-> & Hlen & Hvalid)|[e ->]].
    + constructor; [|constructor]. split; [exact Hd|]. split; assumption.
    + constructor; [exact I|constructor].
  - let l := eval vm_compute in (map fqName Describe) in change (NoDup l).
    repeat (constructor;
            [intros H; cbn [In] in H;
             repeat (destruct H as [H|H]; [discriminate H|]); exact H|]).
    constructor.
Qed.

(** The gauge of each of the five bookkeeping values is sent exactly once
    per scrape, first and in a fixed order, whatever the state: everything
    sent after them is a labelled device, threshold or shower gauge. *)
Theorem Collect_bookkeeping_once (c : HydraoCollector) (mem : Heap) (now : Time) :
  exists rest,
    metrics_of (snd (Collect c mem now)) =
      ([ {| desc := hydraoUpDesc; value := upValue c; labelValues := [] |};
         {| desc := refreshIntervalDesc; value := Seconds (refreshInterval c);
            labelValues := [] |};
         {| desc := refreshTimestampDesc; value := convertTime (lastRefresh c);
            labelValues := [] |};
         {| desc := refreshDurationDesc; value := Seconds (lastRefreshDuration c);
            labelValues := [] |};
         {| desc := cacheTimestampDesc; value := convertTime (cacheTimestamp c);
            labelValues := [] |} ] ++ rest)%list /\
    rest = metrics_of (Collect_data mem (cachedShowerHeadsData c)) /\
    Forall (fun m => labelValues m <> []) rest.
Proof.
  exists (metrics_of (Collect_data mem (cachedShowerHeadsData c))).
  split; [|split; [reflexivity|]].
  - unfold Collect, Collect_head, Collect_timestamp. cbn [fst snd].
    rewrite !sendMetric_unlabelled by reflexivity.
    rewrite !metrics_of_app.
    destruct (Sub now (lastRefresh c) >=? refreshInterval c); reflexivity.
  - pose (Q := fun o => match o with
                        | Sent m => variableLabels (desc m) = [] \/ labelValues m <> []
                        | Logged _ _ => True
                        end).
    assert (HQ : Forall Q (snd (Collect c mem now))).
    { apply Collect_Forall; [|intros; exact I].
      intros d v lvs _.
      destruct (sendMetric_cases d v lvs) as [(-> & Hlen & _)|[e ->]];
        (constructor; [|constructor]); [|exact I].
      cbn. destruct lvs; [left|right; discriminate].
      destruct (variableLabels d); [reflexivity|discriminate]. }
    unfold Collect in HQ. cbn [snd] in HQ.
    rewrite !Forall_app in HQ. destruct HQ as (_ & _ & HQ).
    assert (Hdata : Forall (fun o => match o with
                                     | Sent m => In (desc m) Describe /\
                                                 variableLabels (desc m) <> []
                                     | Logged _ _ => True
                                     end) (Collect_data mem (cachedShowerHeadsData c))).
    { unfold Collect_data. constructor; [exact I|].
      destruct (cachedShowerHeadsData c) as [s|]; [|constructor].
      apply Forall_flat_map. apply Forall_forall. intros sh _.
      unfold collectShowerHeadData.
      destruct (Unmarshal (ThresholdRequest sh)) as [ths err].
      unfold deviceGauges, thresholdGauges.
      assert (Hs : forall d v lvs, In d Describe -> variableLabels d <> [] ->
                     Forall (fun o => match o with
                                      | Sent m => In (desc m) Describe /\
                                                  variableLabels (desc m) <> []
                                      | Logged _ _ => True
                                      end) (sendMetric d v lvs)).
      { intros d v lvs Hin Hl.
        destruct (sendMetric_cases d v lvs) as [(-> & _)|[e ->]];
          (constructor; [|constructor]); [split; assumption|exact I]. }
      rewrite !Forall_app.
      repeat split; try (apply Hs; [in_Describe|discriminate]).
      + destruct err; repeat constructor.
      + apply Forall_flat_map. apply Forall_forall. intros th _.
        apply Hs; [in_Describe|discriminate].
      + apply Forall_flat_map. apply Forall_forall. intros s' _.
        unfold showerGauges. rewrite !Forall_app.
        repeat split; apply Hs; in_Describe || discriminate. }
    apply Forall_metrics_of.
    clear - HQ Hdata. induction HQ as [|o out Ho _ IH]; [constructor|].
    inversion Hdata as [|? ? Hd Hdata']; subst.
    constructor; [|apply IH; assumption].
    destruct o; [|exact I]. destruct Hd as [_ Hl]. destruct Ho as [Ho|Ho]; [contradiction|exact Ho].
Qed.

Lemma reach_all (mem : Heap) (ps : list (option Ref)) :
  (snd (reach mem ps) = false <->
   Forall (fun p => exists r, p = Some r /\ deref mem r <> None) ps) /\
  (snd (reach mem ps) = false -> List.length (fst (reach mem ps)) = List.length ps).
Proof.
  induction ps as [|p ps [IH1 IH2]]; cbn [reach].
  - repeat split; auto.
  - destruct p as [r|].
    + destruct (deref mem r) as [v|] eqn:Hr; cbn [fst snd].
      * split.
        -- rewrite IH1. split.
           ++ intros H. constructor; [|exact H]. exists r. split; [reflexivity|].
              rewrite Hr. discriminate.
           ++ intros H. inversion H. assumption.
        -- intros H. cbn [List.length]. rewrite (IH2 H). reflexivity.
      * split; [split|]; try discriminate.
        intros H. inversion H as [|? ? (r' & Hsome & Hne)].
        injection Hsome as <-. congruence.
    + split; [split|]; try discriminate.
      intros H. inversion H as [|? ? (r' & Hnone & _)]. discriminate.
Qed.

(** No gauge is dropped silently: each call of [sendMetric] in a scrape
    leaves a metric or a logged creation error, and their number is fixed by
    the records the loop reaches: five for the bookkeeping and, per record,
    six, one per threshold entry the decoder left and five per shower. The
    loop reaches every element of the snapshot, and [Collect] returns,
    exactly when no element is nil; at a nil element [Collect] panics, and
    the count is that of the records before it: when the first element is
    nil, the five bookkeeping gauges are all that is sent. *)
Theorem Collect_accounts_for_every_gauge (c : HydraoCollector) (mem : Heap) (now : Time) :
  let out := snd (Collect c mem now) in
  let data := cachedShowerHeadsData c in
  (List.length (metrics_of out) + List.length (filter is_creation_error out))%nat =
  (5 + list_sum (map gauges_of (records mem data)))%nat /\
  (Collect_panics mem data = false <->
   Forall (fun p => exists r, p = Some r /\ deref mem r <> None) (pointers mem data)) /\
  (Collect_panics mem data = false ->
   List.length (records mem data) = List.length (pointers mem data)) /\
  (hd_error (pointers mem data) = Some None ->
   Collect_panics mem data = true /\ List.length (metrics_of out) = 5%nat).
Proof.
  intros out data.
  assert (Hfirst : hd_error (pointers mem data) = Some None ->
                   Collect_panics mem data = true /\ List.length (metrics_of out) = 5%nat).
  { intros Hnil. subst out data.
    unfold Collect_panics, nil_reached, Collect, Collect_head, Collect_timestamp,
      Collect_data, records.
    destruct (pointers mem (cachedShowerHeadsData c)) as [|[r|] ps]; try discriminate Hnil.
    cbn [reach fst snd]. split; [reflexivity|].
    rewrite !sendMetric_unlabelled by reflexivity.
    destruct (cachedShowerHeadsData c);
      destruct (Sub now (lastRefresh c) >=? refreshInterval c); reflexivity. }
  split; [|destruct (reach_all mem (pointers mem data)) as [RA RB];
            split; [exact RA|split; [exact RB|exact Hfirst]]].
  change (tally out = (5 + list_sum (map gauges_of (records mem data)))%nat).
  subst out data. unfold Collect, Collect_head, Collect_timestamp, Collect_data.
  cbn [fst snd].
  rewrite !tally_app, !tally_sendMetric.
  assert (Hcons : forall kv l, tally (Logged Debug kv :: l) = tally l) by reflexivity.
  rewrite !Hcons.
  assert (Hdata : tally (match cachedShowerHeadsData c with
                         | Some _ =>
                             flat_map (fun showerHead =>
                                         collectShowerHeadData showerHead
                                           (DeviceUUID showerHead) (Type_ showerHead)
                                           (Label showerHead))
                                      (records mem (cachedShowerHeadsData c))
                         | None => []
                         end)
                  = list_sum (map gauges_of (records mem (cachedShowerHeadsData c)))).
  { destruct (cachedShowerHeadsData c) as [s|]; [|reflexivity].
    apply tally_flat_map. intros sh. apply tally_collectShowerHeadData. }
  rewrite Hdata.
  destruct (Sub now (lastRefresh c) >=? refreshInterval c); cbn; lia.
Qed.

(** *** The lock and the threads *)

(** The lock is held by the threads inside their critical sections and by
    no other: [writer] is set exactly when one task is between its [Lock]
    and its [Unlock], [readers] counts the scrapes between [RLock] and
    [RUnlock], and a writer excludes readers. At most one task waits inside
    [Lock] for the readers to leave, and [blocked] counts the scrapes held
    inside [RLock]. So once every thread has finished, or has left
    [Collect] by a panic, the lock is free: no path of [Collect] or
    [RefreshData] leaves it held. *)
Theorem cacheLock_held_in_critical_sections
    (cl : Client) (sched : list action) (w : World) :
  exec (init cl) sched = Some w ->
  count in_write (threads w) = (if writer (cacheLock w) then 1 else 0)%nat /\
  count in_read (threads w) = readers (cacheLock w) /\
  (writer (cacheLock w) = true -> readers (cacheLock w) = 0%nat) /\
  count is_waiting (threads w) = (if waiting (cacheLock w) then 1 else 0)%nat /\
  count is_blocked (threads w) = blocked (cacheLock w) /\
  (Forall (fun t => t = Finished \/ t = Panicked) (threads w) ->
   cacheLock w = {| writer := false; readers := 0; waiting := false; blocked := 0 |}).
Proof.
  intros Hexec.
  destruct (lock_inv_reachable cl sched w Hexec) as (Hw & Hr & Hx & _ & _ & _ & Hq & Hb & _).
  split; [exact Hw|]. split; [exact Hr|]. split; [exact Hx|].
  split; [exact Hq|]. split; [exact Hb|].
  intros Hfin.
  assert (Hz : forall f l, f Finished = false -> f Panicked = false ->
                 Forall (fun t => t = Finished \/ t = Panicked) l -> count f l = 0%nat).
  { intros f l Hf Hp Hl. induction Hl as [|t l [->| ->] _ IH]; [reflexivity| |];
      rewrite count_cons, ?Hf, ?Hp; exact IH. }
  rewrite (Hz in_write _ eq_refl eq_refl Hfin) in Hw.
  rewrite (Hz in_read _ eq_refl eq_refl Hfin) in Hr.
  rewrite (Hz is_waiting _ eq_refl eq_refl Hfin) in Hq.
  rewrite (Hz is_blocked _ eq_refl eq_refl Hfin) in Hb.
  destruct (cacheLock w) as [wr rd wt bl]. cbn [writer readers waiting blocked] in *.
  destruct wr; [discriminate|]. destruct wt; [discriminate|].
  rewrite <- Hr, <- Hb. reflexivity.
Qed.

Lemma nth_error_at_length {A : Type} (l1 l2 : list A) (x : A) :
  nth_error (l1 ++ x :: l2) (List.length l1) = Some x.
Proof.
  induction l1 as [|a l1 IH]; [reflexivity|exact IH].
Qed.

Lemma set_nth_at_length (l1 l2 : list thread) (x t : thread) :
  set_nth (List.length l1) t (l1 ++ x :: l2) = (l1 ++ t :: l2)%list.
Proof.
  induction l1 as [|a l1 IH]; [reflexivity|]. cbn. rewrite IH. reflexivity.
Qed.

Lemma nth_error_set_nth_other (l : list thread) (i j : nat) (t : thread) :
  i <> j -> nth_error (set_nth i t l) j = nth_error l j.
Proof.
  revert i j. induction l as [|x l IH]; intros [|i] [|j] H; cbn; auto; try congruence.
Qed.

(** A scrape held in [RLock] stays there through every step of the program
    but the [Unlock] of a refresh task, which hands it the lock. *)
Lemma blocked_reader_step (w : World) (a : action) (w' : World) (j : nat)
    (out : list output) :
  nth_error (threads w) j = Some (CollectRLockBlocked out) ->
  step w a = Some w' ->
  nth_error (threads w') j = Some (CollectRLockBlocked out) \/
  exists k clock start,
    a = Run k clock /\
    nth_error (threads w) k = Some (RefreshUnlock start) /\
    nth_error (threads w') j = Some (CollectReadTimestamp out).
Proof.
  intros Hj Hstep. destruct a as [now | i clock | i env].
  - injection Hstep as <-. left. cbn [threads].
    rewrite nth_error_app1; [exact Hj|].
    apply nth_error_Some. rewrite Hj. discriminate.
  - cbn [step] in Hstep.
    destruct (nth_error (threads w) i) as [t|] eqn:Hi; [|discriminate].
    assert (Hij : i <> j).
    { intros ->. rewrite Hj in Hi. injection Hi as <-. discriminate Hstep. }
    destruct t; cbn [thread_step] in Hstep; try discriminate;
      repeat match type of Hstep with
             | (if ?b then _ else _) = _ => destruct b
             end;
      try discriminate; injection Hstep as <-; cbn [threads];
      rewrite (nth_error_set_nth_other _ i j _ Hij);
      try (left; exact Hj).
    right. exists i, clock, start. split; [reflexivity|]. split; [exact Hi|].
    rewrite nth_error_map, Hj. reflexivity.
  - cbn [step] in Hstep.
    destruct (nth_error (threads w) i) as [t|] eqn:Hi; [|discriminate].
    assert (Hij : i <> j).
    { intros ->. rewrite Hj in Hi. injection Hi as <-. discriminate Hstep. }
    destruct t; unfold fetch_step in Hstep; try discriminate.
    injection Hstep as <-. left. cbn [threads].
    rewrite (nth_error_set_nth_other _ i j _ Hij). exact Hj.
Qed.

(** A scrape is served from the cache without waiting for any fetch: when
    no task holds the write lock or waits in [Lock] for it, the scrape that
    arrives runs its four remaining statements at once, whatever tasks are
    fetching and whatever other scrapes are reading. It delivers what
    [Collect] gives on the collector and the memory as they are, ending in a
    panic exactly when its loop comes to a nil element; it leaves the
    collector, the lock, the client and the memory as they were, and the
    refresh it may have launched has not yet run. When a task does hold the
    write lock or waits for it, the scrape is held inside [RLock]: it is
    counted as blocked and has no step of its own. A scrape held inside
    [RLock] stays there through every step of the program but the [Unlock]
    of a refresh task, which hands it the lock. *)
Theorem scrape_served_without_waiting (w : World) (now c1 c2 c3 c4 : Time) :
  let i := List.length (threads w) in
  let panics := Collect_panics (memory w) (cachedShowerHeadsData (coll w)) in
  (writer (cacheLock w) = false -> waiting (cacheLock w) = false ->
   exists w',
     exec w [Scrape now; Run i c1; Run i c2; Run i c3; Run i c4] = Some w' /\
     scraped w' = (scraped w ++
                   [{| delivered := snd (Collect (coll w) (memory w) now);
                       seenTimestamp := cacheTimestamp (coll w);
                       seenData := cachedShowerHeadsData (coll w);
                       panicked := panics |}])%list /\
     threads w' = (threads w ++ (if panics then Panicked else Finished)
                   :: (if fst (Collect (coll w) (memory w) now)
                       then [RefreshStart now] else []))%list /\
     coll w' = coll w /\ cacheLock w' = cacheLock w /\
     client w' = client w /\ memory w' = memory w /\ fetched w' = fetched w) /\
  (writer (cacheLock w) || waiting (cacheLock w) = true ->
   exists w',
     exec w [Scrape now; Run i c1] = Some w' /\
     nth_error (threads w') i
       = Some (CollectRLockBlocked (snd (Collect_head (coll w) now))) /\
     blocked (cacheLock w') = S (blocked (cacheLock w)) /\
     readers (cacheLock w') = readers (cacheLock w) /\
     scraped w' = scraped w /\
     forall c, step w' (Run i c) = None) /\
  (forall w1 a w2 j out,
      nth_error (threads w1) j = Some (CollectRLockBlocked out) ->
      step w1 a = Some w2 ->
      nth_error (threads w2) j = Some (CollectRLockBlocked out) \/
      exists k clock start,
        a = Run k clock /\
        nth_error (threads w1) k = Some (RefreshUnlock start) /\
        nth_error (threads w2) j = Some (CollectReadTimestamp out)).
Proof.
  intros i panics. subst i.
  destruct (cacheLock w) as [wr rd wt bl] eqn:Hl. cbn [writer waiting].
  split; [|split; [|intros w1 a w2 j out; apply blocked_reader_step]].
  - intros -> ->.
    cbn [exec step threads].
    rewrite nth_error_at_length. cbn [thread_step cacheLock]. rewrite Hl.
    cbn [writer readers waiting blocked orb].
    cbn [exec step threads]. rewrite set_nth_at_length, nth_error_at_length.
    cbn [thread_step coll cacheLock memory threads].
    cbn [exec step threads]. rewrite set_nth_at_length, nth_error_at_length.
    cbn [thread_step coll cacheLock memory threads]. fold panics.
    destruct panics.
    + cbn [exec step threads]. rewrite set_nth_at_length, nth_error_at_length.
      cbn [thread_step coll cacheLock memory threads writer readers waiting blocked Nat.pred].
      rewrite set_nth_at_length.
      eexists. split; [reflexivity|].
      cbn [scraped threads coll cacheLock client memory fetched].
      rewrite !app_nil_r. unfold Collect. cbn [fst snd]. rewrite <- !app_assoc.
      repeat split; reflexivity.
    + cbn [exec step threads]. rewrite set_nth_at_length, nth_error_at_length.
      cbn [thread_step coll cacheLock memory threads writer readers waiting blocked Nat.pred].
      rewrite set_nth_at_length.
      eexists. split; [reflexivity|].
      cbn [scraped threads coll cacheLock client memory fetched].
      rewrite !app_nil_r. unfold Collect. cbn [fst snd]. rewrite <- !app_assoc.
      repeat split; reflexivity.
  - intros Hheld.
    cbn [exec step threads].
    rewrite nth_error_at_length. cbn [thread_step cacheLock]. rewrite Hl.
    cbn [writer readers waiting blocked]. rewrite Hheld.
    cbv beta iota zeta.
    cbn [exec coll cacheLock client memory threads tasklog fetched scraped scrapeTimes].
    rewrite set_nth_at_length.
    eexists. split; [reflexivity|].
    cbn [threads cacheLock blocked readers scraped].
    split; [apply nth_error_at_length|].
    split; [reflexivity|]. split; [reflexivity|]. split; [apply app_nil_r|].
    intros c. cbn [step threads]. rewrite nth_error_at_length. reflexivity.
Qed.

(** *** Where the timestamps come from *)

(** The [now] a refresh task carries until it has written it, and the cache
    timestamp a scrape has read. *)
Definition task_now (t : thread) : option Time :=
  match t with
  | RefreshStart now | RefreshFetching now _ | RefreshLock now _ _
  | RefreshLockWaiting now _ _
  | RefreshWriteTimestamp now _ _ | RefreshWriteData now _ _ => Some now
  | _ => None
  end.

Definition timestamp_read (t : thread) : option Time :=
  match t with
  | CollectReadData _ ts | CollectRUnlock _ ts _ | CollectPanicking _ ts _ => Some ts
  | _ => None
  end.

Definition origin_inv (w : World) : Prop :=
  In (lastRefresh (coll w)) (0 :: scrapeTimes w) /\
  In (cacheTimestamp (coll w)) (0 :: scrapeTimes w) /\
  (forall t now, In t (threads w) -> task_now t = Some now -> In now (scrapeTimes w)) /\
  (forall t ts, In t (threads w) -> timestamp_read t = Some ts ->
                In ts (0 :: scrapeTimes w)) /\
  (forall p, In p (fetched w) -> In (fst p) (scrapeTimes w)) /\
  (forall s, In s (scraped w) -> In (seenTimestamp s) (0 :: scrapeTimes w)).

Lemma in_replaced {A : Type} (l1 l2 : list A) (a b x : A) :
  In x (l1 ++ b :: l2) -> x = b \/ In x (l1 ++ a :: l2).
Proof.
  rewrite !in_app_iff. cbn [In]. intros [H|[H|H]]; auto.
Qed.

Lemma in_replaced_wake (l1 l2 : list thread) (a b x : thread) :
  In x (map wake l1 ++ b :: map wake l2) ->
  x = b \/
  exists y, In y (l1 ++ a :: l2) /\ task_now x = task_now y /\
            timestamp_read x = timestamp_read y.
Proof.
  assert (Hadm : forall l, In x (map wake l) ->
            exists y, In y l /\ task_now x = task_now y /\
                      timestamp_read x = timestamp_read y).
  { intros l H. apply in_map_iff in H as (y & <- & Hy).
    exists y. split; [exact Hy|]. destruct y; split; reflexivity. }
  rewrite in_app_iff. cbn [In]. intros [H|[H|H]]; [|auto|].
  - right. destruct (Hadm _ H) as (y & Hy & E). exists y. split; [|exact E].
    apply in_or_app. left. exact Hy.
  - right. destruct (Hadm _ H) as (y & Hy & E). exists y. split; [|exact E].
    apply in_or_app. right. right. exact Hy.
Qed.

Lemma in_cons_app {A : Type} (x a : A) (l : list A) :
  In x (a :: l) -> forall y, In x (a :: l ++ [y]).
Proof.
  intros [H|H] y; [left; exact H|right; apply in_or_app; left; exact H].
Qed.

Ltac replaced Hx H :=
  match type of H with
  | forall t n, In t (?l1 ++ ?a :: ?l2)%list -> _ => apply (in_replaced l1 l2 a) in Hx
  end.

Ltac replaced_wake Hx H :=
  match type of H with
  | forall t n, In t (?l1 ++ ?a :: ?l2)%list -> _ =>
      apply (in_replaced_wake l1 l2 a) in Hx
  end.

Lemma origin_inv_step (w : World) (a : action) (w' : World) :
  origin_inv w -> step w a = Some w' -> origin_inv w'.
Proof.
  intros (Hl & Hc & Hn & Hr & Hf & Hs) Hstep. destruct a as [now | i clock | i env].
  - injection Hstep as <-. unfold origin_inv.
    cbn [coll threads scrapeTimes fetched scraped].
    split; [apply in_cons_app; exact Hl|]. split; [apply in_cons_app; exact Hc|].
    split; [|split; [|split]].
    + intros t n Ht Hn'. apply in_or_app. apply in_app_or in Ht as [Ht|[<-|Ht]].
      * left. eapply Hn; eassumption.
      * discriminate.
      * match type of Ht with In _ (if ?b then _ else _) => destruct b end;
          [|contradiction].
        destruct Ht as [<-|[]]. injection Hn' as <-. right. left. reflexivity.
    + intros t ts Ht Hts. apply in_app_or in Ht as [Ht|[<-|Ht]].
      * apply in_cons_app. eapply Hr; eassumption.
      * discriminate.
      * match type of Ht with In _ (if ?b then _ else _) => destruct b end;
          [|contradiction].
        destruct Ht as [<-|[]]. discriminate.
    + intros p Hp. apply in_or_app. left. apply Hf. exact Hp.
    + intros s Hs'. apply in_cons_app. apply Hs. exact Hs'.
  - cbn [step] in Hstep.
    destruct (nth_error (threads w) i) as [t|] eqn:Hi; [|discriminate].
    destruct (nth_error_split_set _ _ _ Hi) as (l1 & l2 & Hth & Hset & Hadm).
    assert (Hself : In t (threads w)).
    { rewrite Hth. apply in_or_app. right. left. reflexivity. }
    rewrite Hth in Hn, Hr.
    destruct t; cbn [thread_step] in Hstep; try discriminate;
      repeat match type of Hstep with
             | context [if ?b then _ else _] => destruct b
             end; try discriminate.
    all: injection Hstep as <-; unfold origin_inv;
      cbn [coll threads scrapeTimes fetched scraped RefreshData_begin RefreshData_end
           fst snd set_lastRefresh set_lastRefreshDuration
           set_cacheTimestamp set_cachedShowerHeadsData lastRefresh cacheTimestamp];
      rewrite ?app_nil_r.
    all: try match goal with
             | |- context [map wake] =>
                 rewrite Hadm;
                 split; [exact Hl|]; split; [exact Hc|];
                 split;
                 [intros x n Hx Hxn; replaced_wake Hx Hn;
                  destruct Hx as [->|(y & Hy & E & _)];
                  [discriminate Hxn | rewrite E in Hxn; eapply Hn; eassumption]|];
                 split;
                 [intros x ts0 Hx Hxts; replaced_wake Hx Hn;
                  destruct Hx as [->|(y & Hy & _ & E)];
                  [discriminate Hxts | rewrite E in Hxts; eapply Hr; eassumption]|];
                 split; [exact Hf | exact Hs]
             end.
    all: rewrite Hset.
    all: split; [first [exact Hl | right; eapply Hn; [apply in_or_app; right; left; reflexivity
                                                     | reflexivity]]|].
    all: split; [first [exact Hc | right; eapply Hn; [apply in_or_app; right; left; reflexivity
                                                     | reflexivity]]|].
    all: split;
      [intros x n Hx Hxn; replaced Hx Hn; destruct Hx as [->|Hx];
       [cbn in Hxn;
        first [discriminate Hxn
              | injection Hxn as <-;
                eapply Hn; [apply in_or_app; right; left; reflexivity | reflexivity]]
       |eapply Hn; eassumption]|].
    all: split;
      [intros x ts0 Hx Hxts; replaced Hx Hn; destruct Hx as [->|Hx];
       [cbn in Hxts;
        first [discriminate Hxts
              | injection Hxts as <-;
                first [exact Hc
                      | eapply Hr; [apply in_or_app; right; left; reflexivity
                                   | reflexivity]]]
       |eapply Hr; eassumption]|].
    all: split; [exact Hf|].
    all: try exact Hs.
    all: intros s Hin; apply in_app_or in Hin as [Hin|[<-|[]]]; [apply Hs; exact Hin|];
      cbn [seenTimestamp];
      eapply Hr; [apply in_or_app; right; left; reflexivity | reflexivity].
  - cbn [step] in Hstep.
    destruct (nth_error (threads w) i) as [t|] eqn:Hi; [|discriminate].
    destruct (nth_error_split_set _ _ _ Hi) as (l1 & l2 & Hth & Hset & _).
    rewrite Hth in Hn, Hr.
    destruct t; unfold fetch_step in Hstep; try discriminate.
    remember (fst (run env 0 (GetShowerheads (client w) (memory w)))) as res eqn:Hres.
    clear Hres. destruct res as [cm r].
    injection Hstep as <-. unfold origin_inv.
    cbn [coll threads scrapeTimes fetched scraped RefreshData_fetched fst snd
         set_lastRefreshError lastRefresh cacheTimestamp].
    rewrite Hset.
    assert (Hme : In now (scrapeTimes w)).
    { eapply Hn; [apply in_or_app; right; left; reflexivity | reflexivity]. }
    split; [exact Hl|]. split; [exact Hc|]. split; [|split; [|split; [|exact Hs]]].
    + intros x n Hx Hxn. replaced Hx Hn. destruct Hx as [->|Hx]; [|eapply Hn; eassumption].
      destruct (snd r); [discriminate|]. injection Hxn as <-. exact Hme.
    + intros x ts Hx Hxts. replaced Hx Hn. destruct Hx as [->|Hx]; [|eapply Hr; eassumption].
      destruct (snd r); discriminate.
    + intros p Hp. apply in_app_or in Hp as [Hp|Hp]; [apply Hf; exact Hp|].
      destruct (snd r); [contradiction|]. destruct Hp as [<-|[]]. exact Hme.
Qed.

(** The two timestamps the collector reports are never the time at which
    data arrived: in every reachable state the time of the last refresh try
    and the time of the cached data are each the zero Time or the clock
    reading of a scrape, the one that launched the task which wrote them; so
    is the [now] recorded with every successful fetch, and the cache
    timestamp every scrape that has left [Collect] has read. *)
Theorem timestamps_are_scrape_times (cl : Client) (sched : list action) (w : World) :
  exec (init cl) sched = Some w ->
  In (lastRefresh (coll w)) (0 :: scrapeTimes w) /\
  In (cacheTimestamp (coll w)) (0 :: scrapeTimes w) /\
  (forall p, In p (fetched w) -> In (fst p) (scrapeTimes w)) /\
  (forall s, In s (scraped w) -> In (seenTimestamp s) (0 :: scrapeTimes w)).
Proof.
  intros Hexec.
  assert (H : origin_inv w).
  { revert Hexec. apply (exec_preserves origin_inv origin_inv_step).
    unfold origin_inv, init; cbn. repeat split; auto; intros ? ? []. }
  destruct H as (Hl & Hc & _ & _ & Hf & Hs). repeat split; assumption.
Qed.

End WithDecoder.

(** *** Concrete runs *)

(** What [json.Unmarshal] does on the threshold documents used below: [[]]
    decodes to an empty slice; [[5]] is valid JSON whose element is not an
    object, so the slice gets one element, left at its zero value, and the
    type error is returned; anything else is taken as not being JSON, which
    leaves the slice nil. *)
Definition jsonOnSamples (doc : string) : list Threshold * option error :=
  if String.eqb doc "[]" then ([], None)
  else if String.eqb doc "[5]" then
    ([{| Liter := 0; Color := "" |}],
     Some (LibError "json: cannot unmarshal number into Go value of type hydrao.Threshold"))
  else ([], Some (LibError "unexpected end of JSON input")).

(** A scrape in 2025. *)
Definition t1 : Time := 63900000000 * Second.

Definition headA : ShowerHead :=
  {| DeviceUUID := "a1"; Type_ := "aloe"; Label := "bath"; LastSyncDate := t1;
     RefShowerDuration := 300; PreviousFlow := 9; Flow := 8.5;
     IsLastSyncComplete := 1; ThresholdRequest := "[5]";
     Showers := [ {| sw_DeviceUUID := "a1"; ShowerID := "17"; sw_Flow := 8;
                     sw_Duration := 240; Temperature := 37; Volume := 32;
                     SoapingTime := 40 |} ] |}.

Definition headB : ShowerHead :=
  {| DeviceUUID := "b2"; Type_ := "cereus"; Label := "guest"; LastSyncDate := t1;
     RefShowerDuration := 280; PreviousFlow := 7; Flow := 7.25;
     IsLastSyncComplete := 1; ThresholdRequest := "[]"; Showers := [] |}.

Definition relabel (l : string) (sh : ShowerHead) : ShowerHead :=
  {| DeviceUUID := DeviceUUID sh; Type_ := Type_ sh; Label := l;
     LastSyncDate := LastSyncDate sh; RefShowerDuration := RefShowerDuration sh;
     PreviousFlow := PreviousFlow sh; Flow := Flow sh;
     IsLastSyncComplete := IsLastSyncComplete sh;
     ThresholdRequest := ThresholdRequest sh; Showers := Showers sh |}.

(** Three response bodies, by name, and what the decoder makes of them: the
    two records in full; the same two records after both devices were given
    new labels; and one record that names a new label and a [previous_flow]
    of 40000, which does not fit an int16: the label is stored, the flow is
    skipped and reported. *)
Definition parseSamples (body : string) : Document :=
  if String.eqb body "first" then
    Array [Some (fun _ => headA); Some (fun _ => headB)] Complete growth
  else if String.eqb body "renamed" then
    Array [Some (fun _ => relabel "kitchen" headA); Some (fun _ => relabel "attic" headB)]
      Complete growth
  else if String.eqb body "overflow" then
    Array [Some (relabel "kitchen")]
      (TypeErrors (LibError
         "json: cannot unmarshal number 40000 into Go struct field ShowerHead.previous_flow of type int16"))
      growth
  else NotAnArray (LibError "unexpected end of JSON input").

Definition upstreamWith (body : string) (req : Request) : Response + error :=
  inl {| StatusCode := 200; RespBody := body |}.

Definition upstreamDown (req : Request) : Response + error :=
  inl {| StatusCode := 503; RespBody := "" |}.

(** The answers of the world to one fetch at time [now]. *)
Definition fetchEnv (now : Time) (roundTrip : Request -> Response + error) : Env :=
  constEnv now roundTrip keepSession parseSamples.

(** A scrape launches a refresh, which commits the two records, and
    finishes. Threads: 0 is the scrape, 1 its refresh task. *)
Definition firstRefresh : list action :=
  [ Scrape t1;
    Run 1 (t1 + 1000); Fetched 1 (fetchEnv (t1 + 2000) (upstreamWith "first"));
    Run 0 0; Run 0 0; Run 0 0; Run 0 0;
    Run 1 0; Run 1 0; Run 1 0; Run 1 0;
    Run 1 (t1 + Second) ].

(** Then a second scrape, fifteen seconds later, launches a refresh that
    gets a 503, and finishes after it. Threads: 2 is the scrape, 3 its
    refresh task. *)
Definition demoSchedule : list action :=
  (firstRefresh ++
   [ Scrape (t1 + 15 * Second);
     Run 3 (t1 + 15 * Second + 1000);
     Fetched 3 (fetchEnv (t1 + 15 * Second + 2000) upstreamDown);
     Run 3 (t1 + 16 * Second);
     Run 2 0; Run 2 0; Run 2 0; Run 2 0 ])%list.

Definition world_after (sched : list action) : World :=
  match exec jsonOnSamples (init demoClient) sched with
  | Some w => w
  | None => init demoClient
  end.

Definition demoWorld : World := Eval vm_compute in world_after demoSchedule.

Lemma demoWorld_reached :
  exec jsonOnSamples (init demoClient) demoSchedule = Some demoWorld.
Proof. vm_compute. reflexivity. Qed.

(** The up gauges in what a scrape sends. *)
Definition up_reported (out : list output) : list float :=
  map value (filter (fun m => String.eqb (fqName (desc m)) (fqName hydraoUpDesc))
                    (metrics_of out)).

Definition threshold_gauges (out : list output) : list Metric :=
  filter (fun m => String.eqb (fqName (desc m)) (fqName showerHeadThresholdRequestDesc))
         (metrics_of out).

(** The label values of the device gauges in what a scrape sends, and the
    values of its cache timestamp gauge. *)
Definition devices_reported (out : list output) : list (list string) :=
  map labelValues (filter (fun m => String.eqb (fqName (desc m)) (fqName showerHeadDesc))
                          (metrics_of out)).

Definition cache_time_reported (out : list output) : list float :=
  map value (filter (fun m => String.eqb (fqName (desc m)) (fqName cacheTimestampDesc))
                    (metrics_of out)).

(** The slice of the first refresh, and a memory that holds its two
    records. *)
Definition sliceAB : ShowerHeads := Some {| array := 0; len := 2 |}.

Definition heapAB : Heap :=
  {| structs := [headA; headB];
     arrays := [[Some 0%nat; Some 1%nat; None; None]] |}.

Definition fetchedTwo : FetchResult := (sliceAB, None).
Definition fetchFailed : FetchResult := (None, Some (BadHTTPReturnCode 503)).

(** The first task has recorded its attempt and is fetching. *)
Definition fetchingRun : list action := [Scrape t1; Run 1 (t1 + 1000)].

Definition fetchingWorld : World := Eval vm_compute in world_after fetchingRun.

Definition after_fetch (env : Env) : World :=
  match step jsonOnSamples fetchingWorld (Fetched 1 env) with
  | Some w => w
  | None => fetchingWorld
  end.

Lemma upValue_spec_witness :
  upValue (coll (after_fetch (fetchEnv (t1 + 2000) (upstreamWith "first")))) = 1%float /\
  upValue (coll (after_fetch (fetchEnv (t1 + 2000) upstreamDown))) = 0%float.
Proof.
  destruct (upValue_spec jsonOnSamples New demoClient fetchingRun fetchingWorld
              t1 t1 t1 fetchedTwo) as (_ & _ & _ & _ & Hfetch & _).
  - vm_compute. reflexivity.
  - assert (E : scrapeTimes fetchingWorld = [t1]) by reflexivity.
    rewrite E. intros t [<-|[]]. reflexivity.
  - split.
    + destruct (Hfetch 1%nat (fetchEnv (t1 + 2000) (upstreamWith "first"))
                  (after_fetch (fetchEnv (t1 + 2000) (upstreamWith "first"))))
        as (_ & _ & Hok); [reflexivity|].
      apply Hok. reflexivity.
    + destruct (Hfetch 1%nat (fetchEnv (t1 + 2000) upstreamDown)
                  (after_fetch (fetchEnv (t1 + 2000) upstreamDown)))
        as (_ & Hfail & _); [reflexivity|].
      apply Hfail. discriminate.
Defined.

(** Two tasks overlap: the fetch of the first succeeds, the fetch of the
    second fails after it, and the first task commits and finishes last. The
    gauge follows the fetch that returned last, not the task that finished
    last: it is 0 with the snapshot of the first task committed. *)
Definition overlapRun : list action :=
  [ Scrape t1; Run 1 (t1 + 1000);
    Scrape (t1 + 15 * Second); Run 3 (t1 + 15 * Second + 1000);
    Fetched 1 (fetchEnv (t1 + 16 * Second) (upstreamWith "first"));
    Fetched 3 (fetchEnv (t1 + 16 * Second) upstreamDown);
    Run 3 (t1 + 17 * Second);
    Run 1 0; Run 1 0; Run 1 0; Run 1 0; Run 1 (t1 + 18 * Second) ].

Lemma up_follows_last_returned_fetch :
  exists w,
    exec jsonOnSamples (init demoClient) overlapRun = Some w /\
    nth_error (threads w) 1 = Some Finished /\
    nth_error (threads w) 3 = Some Finished /\
    fetched w = [(t1, sliceAB)] /\
    cachedShowerHeadsData (coll w) = sliceAB /\
    cacheTimestamp (coll w) = t1 /\
    upValue (coll w) = 0%float.
Proof.
  exists (world_after overlapRun).
  split; [vm_compute; reflexivity|].
  repeat split; vm_compute; reflexivity.
Qed.

(** The first refresh has recorded the time of its attempt and is still
    fetching: no fetch has returned, let alone succeeded, and the scrape that
    arrives reports up = 1 where the claim has 0. *)
Lemma upValue_counterexample :
  exists w out,
    exec jsonOnSamples (init demoClient)
      [Scrape t1; Run 1 (t1 + 1000); Scrape (t1 + 2 * Second)] = Some w /\
    fetched w = [] /\
    lastRefreshError (coll w) = None /\
    nth_error (threads w) 1 = Some (RefreshFetching t1 (t1 + 1000)) /\
    nth_error (threads w) 2 = Some (CollectRLock out) /\
    up_reported out = [1%float].
Proof.
  eexists. eexists.
  split; [reflexivity|].
  split; [reflexivity|].
  split; [reflexivity|].
  split; [reflexivity|].
  split; [reflexivity|].
  vm_compute. reflexivity.
Qed.



Lemma Collect_empty_snapshot_witness :
  metrics_of (snd (Collect jsonOnSamples New emptyHeap t1)) =
    [ {| desc := hydraoUpDesc; value := 0; labelValues := [] |};
      {| desc := refreshIntervalDesc; value := Seconds 10; labelValues := [] |};
      {| desc := refreshTimestampDesc; value := 0; labelValues := [] |};
      {| desc := refreshDurationDesc; value := 0; labelValues := [] |};
      {| desc := cacheTimestampDesc; value := 0; labelValues := [] |} ].
Proof.
  destruct (Collect_empty_snapshot jsonOnSamples (init demoClient) t1) as (H & _).
  - reflexivity.
  - exact H.
Defined.

#[local] Set Warnings "-inexact-float".

Lemma refreshInterval_ten_nanoseconds_witness :
  In (Sent {| desc := refreshIntervalDesc; value := 1e-8%float; labelValues := [] |})
     (snd (Collect jsonOnSamples (coll demoWorld) (memory demoWorld) (t1 + 30 * Second))) /\
  fst (Collect jsonOnSamples (coll demoWorld) (memory demoWorld) (t1 + 30 * Second)) = true.
Proof.
  destruct (refreshInterval_ten_nanoseconds jsonOnSamples demoClient demoSchedule demoWorld
              (t1 + 30 * Second)) as (_ & _ & _ & Hgauge & _ & Hlaunch).
  - vm_compute. reflexivity.
  - assert (E : scrapeTimes demoWorld = [t1; t1 + 15 * Second]) by reflexivity.
    rewrite E. intros t [<-|[<-|[<-|[]]]]; vm_compute; discriminate.
  - split; [exact Hgauge | exact Hlaunch].
Defined.

(** Three scrapes, at [t1], ten nanoseconds later and fifteen nanoseconds
    later, the tasks of the first two having run their first statement. The
    third scrape is fifteen nanoseconds after the first, and its interval
    check fails: the attempt time is that of the second scrape. *)
Lemma refreshInterval_pair_counterexample :
  exists w,
    exec jsonOnSamples (init demoClient)
      [Scrape t1; Run 1 (t1 + 1); Scrape (t1 + 10); Run 3 (t1 + 11)] = Some w /\
    In t1 (scrapeTimes w) /\
    (t1 + 15) - t1 >= 10 * Nanosecond /\
    lastRefresh (coll w) = t1 + 10 /\
    fst (Collect jsonOnSamples (coll w) (memory w) (t1 + 15)) = false.
Proof.
  exists (world_after [Scrape t1; Run 1 (t1 + 1); Scrape (t1 + 10); Run 3 (t1 + 11)]).
  split; [vm_compute; reflexivity|].
  split; [left; reflexivity|].
  split; [vm_compute; discriminate|].
  split; vm_compute; reflexivity.
Qed.

Lemma malformed_thresholds_contained_witness :
  let out := snd (Collect jsonOnSamples (coll demoWorld) (memory demoWorld)
                    (t1 + 30 * Second)) in
  In (Logged Error
        [LStr "msg";
         LSprintf "Error unmarshalling thresholds: %s"
           [LErr (Some (LibError
              "json: cannot unmarshal number into Go value of type hydrao.Threshold"))]])
     out /\
  In (Sent {| desc := showerHeadThresholdRequestDesc; value := 0;
              labelValues := ["a1"; "aloe"; "bath"; ""] |}) out /\
  (forall d, In d deviceDescs ->
     exists v, In (Sent {| desc := d; value := v; labelValues := ["a1"; "aloe"; "bath"] |})
                  out) /\
  (forall d, In d deviceDescs ->
     exists v, In (Sent {| desc := d; value := v; labelValues := ["b2"; "cereus"; "guest"] |})
                  out).
Proof.
  intros out.
  assert (E : records (memory demoWorld) (cachedShowerHeadsData (coll demoWorld))
              = [headA; headB]) by reflexivity.
  destruct (malformed_thresholds_contained jsonOnSamples (coll demoWorld) (memory demoWorld)
              (t1 + 30 * Second) headA
              (LibError "json: cannot unmarshal number into Go value of type hydrao.Threshold"))
    as (Hlog & _ & Hth & Hdev & _).
  - rewrite E. left. reflexivity.
  - reflexivity.
  - split; [exact Hlog|]. split; [|split; intros d Hd].
    + apply (Hth {| Liter := 0; Color := "" |}); [left; reflexivity | reflexivity].
    + apply (Hdev headA d); [rewrite E; left; reflexivity | reflexivity | exact Hd].
    + apply (Hdev headB d); [rewrite E; right; left; reflexivity | reflexivity | exact Hd].
Defined.

(** The threshold document of [headA] does not decode, and a threshold gauge
    is sent for it all the same: the decoder had stored an entry before it
    returned its error. *)
Lemma malformed_thresholds_counterexample :
  let c := set_cachedShowerHeadsData New sliceAB in
  snd (jsonOnSamples (ThresholdRequest headA)) <> None /\
  threshold_gauges (snd (Collect jsonOnSamples c heapAB t1)) =
    [ {| desc := showerHeadThresholdRequestDesc; value := 0;
         labelValues := ["a1"; "aloe"; "bath"; ""] |} ].
Proof.
  split; [discriminate | vm_compute; reflexivity].
Qed.

(** *** The snapshot is the client's decoding buffer *)

(** After the first refresh, a second one whose response is decoded into the
    same records and then fails on a number that does not fit. *)
Definition overflowRun : list action :=
  (firstRefresh ++
   [ Scrape (t1 + 15 * Second);
     Run 3 (t1 + 15 * Second + 1000);
     Fetched 3 (fetchEnv (t1 + 15 * Second + 2000) (upstreamWith "overflow"));
     Run 3 (t1 + 16 * Second) ])%list.

(** After the first refresh, a second one whose fetch has returned and which
    has not yet taken the lock, and the scrape that launched it reading the
    cache meanwhile. *)
Definition staleRun : list action :=
  (firstRefresh ++
   [ Scrape (t1 + 15 * Second);
     Run 3 (t1 + 15 * Second + 1000);
     Fetched 3 (fetchEnv (t1 + 15 * Second + 2000) (upstreamWith "renamed"));
     Run 2 0; Run 2 0; Run 2 0; Run 2 0 ])%list.

(** C2 (where the code departs from it). The second refresh fails: its
    error is recorded, and [RefreshData] assigns neither the cached slice nor
    the cache timestamp, which stay those of the first refresh. But the fetch
    has decoded the response into the records that slice points to before it
    found the error, so the cached snapshot no longer shows the records of the
    first refresh. *)
Theorem failed_refresh_overwrites_snapshot :
  exists before after,
    exec jsonOnSamples (init demoClient) firstRefresh = Some before /\
    exec jsonOnSamples (init demoClient) overflowRun = Some after /\
    lastRefreshError (coll after) <> None /\
    cachedShowerHeadsData (coll after) = cachedShowerHeadsData (coll before) /\
    cacheTimestamp (coll after) = cacheTimestamp (coll before) /\
    map Label (records (memory before) (cachedShowerHeadsData (coll before)))
      = ["bath"; "guest"] /\
    map Label (records (memory after) (cachedShowerHeadsData (coll after)))
      = ["kitchen"; "guest"].
Proof.
  exists (world_after firstRefresh), (world_after overflowRun).
  split; [vm_compute; reflexivity|].
  split; [vm_compute; reflexivity|].
  split; [vm_compute; discriminate|].
  repeat split; vm_compute; reflexivity.
Qed.

(** C7 (where the code departs from it). The second scrape reads, under the
    read lock, the cache timestamp of the first refresh and the slice that was
    committed with it, and sends the device groups of the records that the
    second refresh has fetched: that fetch decoded its response into the
    records the cached slice points to, outside the lock and before its task
    committed anything. *)
Theorem scrape_reads_newer_records :
  exists w first second,
    exec jsonOnSamples (init demoClient) staleRun = Some w /\
    scraped w = [first; second] /\
    nth_error (threads w) 3
      = Some (RefreshLock (t1 + 15 * Second) (t1 + 15 * Second + 1000) sliceAB) /\
    cacheTimestamp (coll w) = t1 /\
    seenTimestamp second = t1 /\
    seenData second = sliceAB /\
    cache_time_reported (delivered second) = [convertTime t1] /\
    devices_reported (delivered second)
      = [["a1"; "aloe"; "kitchen"]; ["b2"; "cereus"; "attic"]] /\
    devices_reported
      (snd (Collect jsonOnSamples (coll (world_after firstRefresh))
              (memory (world_after firstRefresh)) (t1 + Second)))
      = [["a1"; "aloe"; "bath"]; ["b2"; "cereus"; "guest"]].
Proof.
  exists (world_after staleRun).
  eexists. eexists.
  split; [vm_compute; reflexivity|].
  split; [vm_compute; reflexivity|].
  repeat split; vm_compute; reflexivity.
Qed.

(** *** Null in a response *)

(** Two more bodies: the JSON [null], and an array whose first element is
    [null] and whose second is an empty object. *)
Definition parseNulls (body : string) : Document :=
  if String.eqb body "null" then Null
  else if String.eqb body "nullfirst" then Array [None; Some (fun sh => sh)] Complete growth
  else parseSamples body.

Definition clientAB : Client :=
  {| httpResponse := None; hydrao := hydrao demoClient; showerHeads := sliceAB |}.

Definition fetch_of (body : string) (c : Client) (mem : Heap)
  : (Client * Heap) * (ShowerHeads * option error) :=
  fst (run (constEnv (t1 + 2000) (upstreamWith body) keepSession parseNulls) 0
         (GetShowerheads c mem)).

(** A body that is [null] changes nothing and is no error: the slice the
    client holds is returned as it is. An array with a [null] element gives
    a slice with a nil element: decoded into the slice of the two records it
    takes the first of them from the slice, which every holder of the slice
    sees, and a scrape of that snapshot sends the five bookkeeping gauges and
    then panics. *)
Lemma null_in_a_response :
  fetch_of "null" clientAB heapAB
    = ((set_httpResponse clientAB (Some {| StatusCode := 200; RespBody := "null" |}), heapAB),
       (sliceAB, None)) /\
  snd (fetch_of "nullfirst" clientAB heapAB) = (sliceAB, None) /\
  pointers (snd (fst (fetch_of "nullfirst" clientAB heapAB))) sliceAB = [None; Some 1%nat] /\
  let mem := snd (fst (fetch_of "nullfirst" clientAB heapAB)) in
  let c := set_cachedShowerHeadsData New sliceAB in
  List.length (metrics_of (snd (Collect jsonOnSamples c mem t1))) = 5%nat /\
  Collect_panics mem sliceAB = true.
Proof.
  split; [vm_compute; reflexivity|].
  split; [vm_compute; reflexivity|].
  split; [vm_compute; reflexivity|].
  split; vm_compute; reflexivity.
Qed.

(** *** The invariants on the concrete run *)


Lemma cached_pointers_lead_to_records_witness :
  pointers (memory demoWorld) (cachedShowerHeadsData (coll demoWorld))
    = [Some 0%nat; Some 1%nat] /\
  ~ In None (pointers (memory demoWorld) (cachedShowerHeadsData (coll demoWorld))) /\
  List.length (records (memory demoWorld) (cachedShowerHeadsData (coll demoWorld))) = 2%nat.
Proof.
  destruct (cached_pointers_lead_to_records jsonOnSamples demoClient demoSchedule demoWorld)
    as (_ & Hp & Hl).
  - reflexivity.
  - vm_compute. reflexivity.
  - split; [vm_compute; reflexivity|]. split.
    + intros Hin. apply Hp in Hin. vm_compute in Hin. discriminate.
    + rewrite Hl; vm_compute; reflexivity.
Defined.

Lemma cacheLock_held_in_critical_sections_witness :
  cacheLock demoWorld = {| writer := false; readers := 0; waiting := false; blocked := 0 |}.
Proof.
  destruct (cacheLock_held_in_critical_sections jsonOnSamples demoClient demoSchedule
              demoWorld) as (_ & _ & _ & _ & _ & H).
  - vm_compute. reflexivity.
  - apply H. repeat constructor.
Defined.

Lemma timestamps_are_scrape_times_witness :
  In (lastRefresh (coll demoWorld)) (0 :: scrapeTimes demoWorld) /\
  In (cacheTimestamp (coll demoWorld)) (0 :: scrapeTimes demoWorld).
Proof.
  destruct (timestamps_are_scrape_times jsonOnSamples demoClient demoSchedule demoWorld)
    as (Hl & Hc & _).
  - vm_compute. reflexivity.
  - split; assumption.
Defined.

(** A third scrape, arriving when the two refreshes are over. *)
Lemma scrape_served_without_waiting_witness :
  exists w',
    exec jsonOnSamples demoWorld
      [Scrape (t1 + 30 * Second); Run 4 0; Run 4 0; Run 4 0; Run 4 0] = Some w' /\
    coll w' = coll demoWorld /\
    cacheLock w' = cacheLock demoWorld /\
    memory w' = memory demoWorld.
Proof.
  destruct (scrape_served_without_waiting jsonOnSamples demoWorld (t1 + 30 * Second) 0 0 0 0)
    as [Hfree _].
  destruct Hfree as (w' & He & _ & _ & Hc & Hl & _ & Hm & _).
  - reflexivity.
  - reflexivity.
  - exists w'. split; [exact He|]. split; [exact Hc|]. split; [exact Hl|exact Hm].
Defined.

(** The first refresh task, from the state the first scrape leaves. *)
Lemma refresh_task_alone_witness :
  let w := world_after [Scrape t1] in
  exists w',
    exec jsonOnSamples w
      [Run 1 (t1 + 1000); Fetched 1 (fetchEnv (t1 + 2000) (upstreamWith "first"));
       Run 1 (t1 + 1000); Run 1 (t1 + 1000); Run 1 (t1 + 1000); Run 1 (t1 + 1000);
       Run 1 (t1 + Second)] = Some w' /\
    nth_error (threads w') 1 = Some Finished /\
    cacheLock w' = cacheLock w.
Proof.
  intros w.
  destruct (refresh_task_alone jsonOnSamples w 1 t1 (t1 + 1000) (t1 + Second)
              (fetchEnv (t1 + 2000) (upstreamWith "first")))
    as (w' & He & _ & Hn & Hl & _).
  - reflexivity.
  - reflexivity.
  - exists w'. split; [exact He|]. split; [exact Hn|exact Hl].
Defined.

End Collector.
